(** * FlowGuard: the admission engine and its counter store

    A shallow embedding of [internal/limiter] (RateLimiter),
    [internal/storage/redis.go] (RedisClient) and the authentication
    middleware, together with models of the pieces of the Go runtime and of
    the Redis server these files call into: [time.Time] and [time.Date],
    [fmt.Sprintf] with the verbs the code uses, [strconv.Atoi], and the Redis
    commands GET, INCR, EXPIRE, SADD, SREM and SMEMBERS. *)

From Stdlib Require Import ZArith Lia List String Ascii Bool.
From stdpp Require Import base option list gmap strings pretty.

Local Open Scope Z_scope.

(** ** Go's [time] package *)

Module GoTime.

(** [time.Duration]: a count of nanoseconds. *)
Definition Duration := Z.

Definition Nanosecond : Duration := 1.
Definition Second : Duration := 1000000000 * Nanosecond.
Definition Minute : Duration := 60 * Second.
Definition Hour : Duration := 60 * Minute.

(** A [*time.Location] with a single fixed offset (seconds east of UTC):
    UTC itself, or a zone without transitions. *)
Record Location := { zone : string; offset : Z }.

Definition UTC : Location := {| zone := "UTC"; offset := 0 |}.

(** [time.Time], held as the civil fields its accessors return in the
    value's own location. *)
Record Time := {
  year : Z; month : Z; day : Z;
  hour : Z; minute : Z; second : Z; nanosecond : Z;
  location : Location
}.

(** The accessors; [Hour_of] and [Minute_of] are [t.Hour()] and [t.Minute()],
    [Hour] and [Minute] being the durations. *)
Definition Year (t : Time) : Z := year t.
Definition Month (t : Time) : Z := month t.
Definition Day (t : Time) : Z := day t.
Definition Hour_of (t : Time) : Z := hour t.
Definition Minute_of (t : Time) : Z := minute t.
Definition Loc (t : Time) : Location := location t.

Definition isLeap (y : Z) : bool :=
  (y mod 4 =? 0) && (negb (y mod 100 =? 0) || (y mod 400 =? 0)).

(** [daysBefore[m-1]]: days of a non-leap year before month [m] starts. *)
Definition daysBefore (m : Z) : Z :=
  match m with
  | 1 => 0 | 2 => 31 | 3 => 59 | 4 => 90 | 5 => 120 | 6 => 151
  | 7 => 181 | 8 => 212 | 9 => 243 | 10 => 273 | 11 => 304 | 12 => 334
  | _ => 365
  end.

(** Days of month [m] in a leap or common year. *)
Definition daysIn_of (leap : bool) (m : Z) : Z :=
  if (m =? 2) && leap then 29 else daysBefore (m + 1) - daysBefore m.

Definition daysIn (y m : Z) : Z := daysIn_of (isLeap y) m.

(** Days from 0001-01-01 to the first day of year [y]. *)
Definition daysSinceEpoch (y : Z) : Z :=
  let p := y - 1 in 365 * p + p / 4 - p / 100 + p / 400.

(** Day of the year (0-based) of day [d] of month [m]. *)
Definition yday_of (leap : bool) (m d : Z) : Z :=
  daysBefore m + (if leap && (3 <=? m) then 1 else 0) + (d - 1).

(** Day number of a civil date, 0001-01-01 being day 0; [d] may lie outside
    the month, as in [time.Date]. *)
Definition days_from_civil (y m d : Z) : Z :=
  daysSinceEpoch y + yday_of (isLeap y) m d.

Definition daysPer400Years : Z := 365 * 400 + 97.
Definition daysPer100Years : Z := 365 * 100 + 24.
Definition daysPer4Years : Z := 365 * 4 + 1.

Definition yearLen (y : Z) : Z := if isLeap y then 366 else 365.

(** Month and day of the month from the day of the year (0-based) of a
    leap or common year: the month is first estimated as if every month had
    31 days. *)
Definition month_day (leap : bool) (yday : Z) : Z * Z :=
  if leap && (yday =? 31 + 29 - 1) then (2, 29)
  else
    let dy := if leap && (31 + 29 - 1 <? yday) then yday - 1 else yday in
    let m := dy / 31 in
    let stop := daysBefore (m + 2) in
    if stop <=? dy then (m + 2, dy - stop + 1)
    else (m + 1, dy - daysBefore (m + 1) + 1).

(** [month_day] undoes [yday_of] at day [d] of month [m]. *)
Definition month_day_check (leap : bool) (m d : Z) : bool :=
  let yd := yday_of leap m d in
  (0 <=? yd) && (yd <? (if leap then 366 else 365))
  && (let '(m', d') := month_day leap yd in (m' =? m) && (d' =? d)).

(** The civil date of a day number: 400-, 100-, 4- and 1-year cycles are cut
    off in turn, the last 100-year cycle of a 400-year cycle and the last
    year of a 4-year cycle being one day longer. *)
Definition civil_from_days (n : Z) : Z * Z * Z :=
  let n400 := n / daysPer400Years in
  let d := n - daysPer400Years * n400 in
  let n100 := d / daysPer100Years in
  let n100 := n100 - n100 / 4 in
  let d := d - daysPer100Years * n100 in
  let n4 := d / daysPer4Years in
  let d := d - daysPer4Years * n4 in
  let n1 := d / 365 in
  let n1 := n1 - n1 / 4 in
  let d := d - 365 * n1 in
  let y := 400 * n400 + 100 * n100 + 4 * n4 + n1 + 1 in
  let '(m, dd) := month_day (isLeap y) d in
  (y, m, dd).

(** [norm hi lo base]: carry [lo] into [hi] so that [0 <= lo < base]. *)
Definition norm (hi lo base : Z) : Z * Z := (hi + lo / base, lo mod base).

(** [time.Date]: out-of-range values are normalised, month into year, then
    nanoseconds, seconds, minutes and hours into the day, and the day
    through the day number of the date. *)
Definition Date (y mo d h mi s ns : Z) (loc : Location) : Time :=
  let '(y, m) := norm y (mo - 1) 12 in
  let mo := m + 1 in
  let '(s, ns) := norm s ns 1000000000 in
  let '(mi, s) := norm mi s 60 in
  let '(h, mi) := norm h mi 60 in
  let '(d, h) := norm d h 24 in
  let '(y', mo', d') := civil_from_days (days_from_civil y mo 1 + (d - 1)) in
  {| year := y'; month := mo'; day := d';
     hour := h; minute := mi; second := s; nanosecond := ns;
     location := loc |}.

(** Days between 0001-01-01 and 1970-01-01. *)
Definition unixEpochDay : Z := Eval cbv in days_from_civil 1970 1 1.

(** [t.Unix()]: seconds since 1970-01-01T00:00:00Z. *)
Definition Unix (t : Time) : Z :=
  (days_from_civil (year t) (month t) (day t) - unixEpochDay) * 86400
  + hour t * 3600 + minute t * 60 + second t - offset (location t).

(** The time [sec] seconds and [ns] nanoseconds after the Unix epoch, in
    location [loc]. *)
Definition of_unix (sec ns : Z) (loc : Location) : Time :=
  let l := sec + offset loc in
  let '(y, m, d) := civil_from_days (l / 86400 + unixEpochDay) in
  let r := l mod 86400 in
  {| year := y; month := m; day := d;
     hour := r / 3600; minute := (r mod 3600) / 60; second := r mod 60;
     nanosecond := ns; location := loc |}.

(** [t.Add(d)]. *)
Definition Add (t : Time) (d : Duration) : Time :=
  let total := Unix t * 1000000000 + nanosecond t + d in
  of_unix (total / 1000000000) (total mod 1000000000) (location t).

(** [t.Sub(u)], without the saturation at the ends of [int64]. *)
Definition Sub (t u : Time) : Duration :=
  (Unix t - Unix u) * 1000000000 + (nanosecond t - nanosecond u).

(** Well-formed civil fields: what the accessors of a [time.Time] can
    return. *)
Definition valid_time (t : Time) : bool :=
  (1 <=? month t) && (month t <=? 12)
  && (1 <=? day t) && (day t <=? daysIn (year t) (month t))
  && (0 <=? hour t) && (hour t <? 24)
  && (0 <=? minute t) && (minute t <? 60)
  && (0 <=? second t) && (second t <? 60)
  && (0 <=? nanosecond t) && (nanosecond t <? 1000000000).

End GoTime.

(** ** Go's [int], [fmt.Sprintf] and [strconv.Atoi] *)

Module GoInt.

Definition minInt : Z := - 2 ^ 63.
Definition maxInt : Z := 2 ^ 63 - 1.

(** The value an [int] (64 bits) holds after an operation whose exact
    result is [z]. *)
Definition wrap (z : Z) : Z := (z + 2 ^ 63) mod 2 ^ 64 - 2 ^ 63.

Definition sub (a b : Z) : Z := wrap (a - b).

End GoInt.

Module Fmt.

(** The verb [%d]. *)
Definition d (n : Z) : string := pretty n.

(** The verb [%02d]: padded with zeros on the left to width 2. *)
Definition d02 (n : Z) : string :=
  let s := pretty n in
  if (String.length s <? 2)%nat then "0" +:+ s else s.

End Fmt.

(** Go's [error] values, as far as these files build and compare them. *)
Inductive NumErrKind := ErrSyntax | ErrRange.

Inductive error :=
| RedisNil                                  (* redis.Nil: the key has no value *)
| RedisError (msg : string)                 (* an error reply of the server *)
| NetError                                  (* connection failure, timeout, cancelled context *)
| NumError (fn input : string) (k : NumErrKind)  (* *strconv.NumError *)
| Wrapped (msg : string) (e : error).       (* fmt.Errorf("msg: %w", e) *)

Module Strconv.

Definition digit_of (c : ascii) : option Z :=
  let n := Z.of_N (N_of_ascii c) in
  if (48 <=? n) && (n <=? 57) then Some (n - 48) else None.

Fixpoint digits (s : string) (acc : Z) : option Z :=
  match s with
  | EmptyString => Some acc
  | String c s' =>
      match digit_of c with
      | Some v => digits s' (acc * 10 + v)
      | None => None
      end
  end.

(** [strconv.Atoi]: an optional sign, then one or more decimal digits; a
    value outside [int] is a range error, returned with the nearest bound. *)
Definition Atoi (s : string) : Z * option error :=
  let '(neg, body) :=
    match s with
    | String "-" r => (true, r)
    | String "+" r => (false, r)
    | _ => (false, s)
    end in
  match body with
  | EmptyString => (0, Some (NumError "Atoi" s ErrSyntax))
  | _ =>
      match digits body 0 with
      | None => (0, Some (NumError "Atoi" s ErrSyntax))
      | Some n =>
          let v := if neg then - n else n in
          if v <? GoInt.minInt then (GoInt.minInt, Some (NumError "Atoi" s ErrRange))
          else if GoInt.maxInt <? v then (GoInt.maxInt, Some (NumError "Atoi" s ErrRange))
          else (v, None)
      end
  end.

End Strconv.

(** ** The Redis server *)

Module Redis.

Import GoTime.

Inductive Value :=
| VString (s : string)
| VSet (members : gset string).

(** A key's value and its remaining time to live ([None]: no expiry). *)
Record Entry := { value : Value; ttl : option Duration }.

Inductive Cmd :=
| GET (key : string)
| INCR (key : string)
| EXPIRE (key : string) (seconds : Z)
| SADD (key member : string)
| SREM (key member : string)
| SMEMBERS (key : string).

Inductive Reply :=
| RInt (n : Z)
| RBulk (s : string)
| RNil
| RMulti (l : list string)
| RErr (msg : string).

Definition WRONGTYPE : string :=
  "WRONGTYPE Operation against a key holding the wrong kind of value".
Definition NOTINT : string := "ERR value is not an integer or out of range".
Definition OVERFLOW : string := "ERR increment or decrement would overflow".

(** The server's reading of a stored string as a 64-bit integer: "0", or an
    optional minus sign and digits that start with a non-zero one. *)
Definition string2ll (s : string) : option Z :=
  if decide (s = "0") then Some 0
  else
    let '(neg, body) :=
      match s with
      | String "-" r => (true, r)
      | _ => (false, s)
      end in
    match body with
    | EmptyString => None
    | String c _ =>
        match Strconv.digit_of c with
        | Some 0 | None => None
        | Some _ =>
            match Strconv.digits body 0 with
            | None => None
            | Some n =>
                let v := if neg then - n else n in
                if (GoInt.minInt <=? v) && (v <=? GoInt.maxInt) then Some v else None
            end
        end
    end.

(** One command against the key space. *)
Definition exec (c : Cmd) (db : gmap string Entry) : gmap string Entry * Reply :=
  match c with
  | GET k =>
      match db !! k with
      | None => (db, RNil)
      | Some {| value := VString s |} => (db, RBulk s)
      | Some _ => (db, RErr WRONGTYPE)
      end
  | INCR k =>
      match db !! k with
      | None => (<[k := {| value := VString "1"; ttl := None |}]> db, RInt 1)
      | Some {| value := VString s; ttl := t |} =>
          match string2ll s with
          | None => (db, RErr NOTINT)
          | Some n =>
              if GoInt.maxInt <=? n then (db, RErr OVERFLOW)
              else (<[k := {| value := VString (pretty (n + 1)); ttl := t |}]> db,
                    RInt (n + 1))
          end
      | Some _ => (db, RErr WRONGTYPE)
      end
  | EXPIRE k secs =>
      match db !! k with
      | None => (db, RInt 0)
      | Some e =>
          if secs <=? 0 then (delete k db, RInt 1)
          else (<[k := {| value := value e; ttl := Some (secs * Second) |}]> db, RInt 1)
      end
  | SADD k x =>
      match db !! k with
      | None => (<[k := {| value := VSet {[ x ]}; ttl := None |}]> db, RInt 1)
      | Some {| value := VSet s; ttl := t |} =>
          if decide (x ∈ s) then (db, RInt 0)
          else (<[k := {| value := VSet ({[ x ]} ∪ s); ttl := t |}]> db, RInt 1)
      | Some _ => (db, RErr WRONGTYPE)
      end
  | SREM k x =>
      match db !! k with
      | None => (db, RInt 0)
      | Some {| value := VSet s; ttl := t |} =>
          if decide (x ∈ s) then
            (if decide (s ∖ {[ x ]} = ∅) then delete k db
             else <[k := {| value := VSet (s ∖ {[ x ]}); ttl := t |}]> db, RInt 1)
          else (db, RInt 0)
      | Some _ => (db, RErr WRONGTYPE)
      end
  | SMEMBERS k =>
      match db !! k with
      | None => (db, RMulti [])
      | Some {| value := VSet s |} => (db, RMulti (elements s))
      | Some _ => (db, RErr WRONGTYPE)
      end
  end.

(** The commands of one round trip, in order. *)
Fixpoint exec_all (cs : list Cmd) (db : gmap string Entry)
  : gmap string Entry * list Reply :=
  match cs with
  | [] => (db, [])
  | c :: cs' =>
      let '(db1, r) := exec c db in
      let '(db2, rs) := exec_all cs' db1 in
      (db2, r :: rs)
  end.

(** The key space after [d] nanoseconds: times to live run down and the
    keys whose time is over are gone. *)
Definition elapse (d : Duration) (db : gmap string Entry) : gmap string Entry :=
  omap (fun e =>
          match ttl e with
          | None => Some e
          | Some t =>
              if d <? t then Some {| value := value e; ttl := Some (t - d) |}
              else None
          end) db.

End Redis.

(** ** The world the gateway runs in *)

Module World.

Import GoTime Redis.

(** What happens to one round trip to the server. *)
Inductive Fault :=
| NoFault
| RequestLost     (* the commands never reach the server *)
| ReplyLost.      (* the commands run, the replies never arrive *)

(** The key space of the server, the round trips the client has attempted
    so far (oldest first), the fate of the n-th round trip, and the wall
    clock: the n-th call of [time.Now()] returns [clock n]. *)
Record World := {
  store : gmap string Entry;
  trace : list (list Cmd);
  net : nat -> Fault;
  clock : nat -> Time;
  reads : nat
}.

Definition M (A : Type) : Type := World -> A * World.

Definition ret {A} (a : A) : M A := fun w => (a, w).

Definition bind {A B} (m : M A) (f : A -> M B) : M B :=
  fun w => let '(a, w') := m w in f a w'.

(** [time.Now()]. *)
Definition time_Now : M Time :=
  fun w => (clock w (reads w),
            {| store := store w; trace := trace w; net := net w;
               clock := clock w; reads := S (reads w) |}).

(** One round trip carrying [cs]: the replies, or the transport's error. *)
Definition roundtrip (cs : list Cmd) : M (list Reply * option error) :=
  fun w =>
    let after db :=
      {| store := db; trace := trace w ++ [cs]; net := net w;
         clock := clock w; reads := reads w |} in
    match net w (length (trace w)) with
    | NoFault =>
        let '(db, rs) := exec_all cs (store w) in ((rs, None), after db)
    | RequestLost => (([], Some NetError), after (store w))
    | ReplyLost =>
        let '(db, _) := exec_all cs (store w) in (([], Some NetError), after db)
    end.

(** The passing of [d] nanoseconds on the server. *)
Definition sleep (d : Duration) (w : World) : World :=
  {| store := elapse d (store w); trace := trace w; net := net w;
     clock := clock w; reads := reads w |}.

End World.

Notation "'let*' x ':=' m 'in' k" := (World.bind m (fun x => k))
  (at level 10, x name, m at level 100, k at level 200, only parsing).
Notation "'let*' ' p ':=' m 'in' k" := (World.bind m (fun x => match x with p => k end))
  (at level 10, p pattern, m at level 100, k at level 200, only parsing).

(** ** The go-redis client *)

Module GoRedis.

Import GoTime Redis World.

(** The error a reply stands for in the client: [redis.Nil] for a nil
    reply, the server's message for an error reply. *)
Definition reply_err (r : Reply) : option error :=
  match r with
  | RNil => Some RedisNil
  | RErr m => Some (RedisError m)
  | _ => None
  end.

Definition reply_string (r : Reply) : string :=
  match r with RBulk s => s | _ => "" end.

Definition reply_int (r : Reply) : Z :=
  match r with RInt n => n | _ => 0 end.

Definition reply_strings (r : Reply) : list string :=
  match r with RMulti l => l | _ => [] end.

Fixpoint first_err (rs : list Reply) : option error :=
  match rs with
  | [] => None
  | r :: rs' => match reply_err r with Some e => Some e | None => first_err rs' end
  end.

(** The seconds an [Expire] sends for a duration: whole seconds, and 1 for
    a positive duration below one second. *)
Definition formatSec (dur : Duration) : Z :=
  if (0 <? dur) && (dur <? Second) then 1 else Z.quot dur Second.

(** A single command: its reply and error ([client.Get(..)] and the like,
    before [.Result()], [.Err()] or [.Val()]). *)
Definition call (c : Cmd) : M (Reply * option error) :=
  let* '(rs, err) := roundtrip [c] in
  match err, rs with
  | Some e, _ => ret (RNil, Some e)
  | None, r :: _ => ret (r, reply_err r)
  | None, [] => ret (RNil, Some NetError)
  end.

(** [pipe.Exec]: every queued command is sent in one round trip; the error
    is the transport's, or the first error among the replies. *)
Definition Exec (queued : list Cmd) : M (list Reply * option error) :=
  let* '(rs, err) := roundtrip queued in
  match err with
  | Some e => ret (rs, Some e)
  | None => ret (rs, first_err rs)
  end.

End GoRedis.

(** ** internal/storage/redis.go: RedisClient

    The receiver's connection is the world; its logger writes log lines only
    and is left out, as is the [context.Context], whose cancellation shows as
    a failed round trip. *)

Module Storage.

Import GoTime Redis World GoRedis.

(** IncrementRateLimit increments the rate limit counter for a given API
    key and window. *)
Definition IncrementRateLimit (apiKey window : string) (limit : Z)
  : M (Z * option error) :=
  let key := "rate:" +:+ apiKey +:+ ":" +:+ window in
  let* '(rs, err) := Exec [INCR key; EXPIRE key (formatSec Hour)] in
  match err with
  | Some e => ret (0, Some (Wrapped "failed to increment rate limit" e))
  | None =>
      let current := reply_int (nth 0 rs RNil) in
      ret (current, None)
  end.

(** GetRateLimit gets the current rate limit count for a given API key and
    window. *)
Definition GetRateLimit (apiKey window : string) : M (Z * option error) :=
  let key := "rate:" +:+ apiKey +:+ ":" +:+ window in
  let* '(r, err) := call (GET key) in
  let val := reply_string r in
  match err with
  | Some RedisNil => ret (0, None)
  | Some e => ret (0, Some (Wrapped "failed to get rate limit" e))
  | None =>
      let '(count, err) := Strconv.Atoi val in
      match err with
      | Some e => ret (0, Some (Wrapped "failed to parse rate limit count" e))
      | None => ret (count, None)
      end
  end.

(** IncrementMonthlyQuota increments the monthly quota counter for a given
    API key. *)
Definition IncrementMonthlyQuota (apiKey : string) (quota : Z)
  : M (Z * option error) :=
  let* now := time_Now in
  let monthKey := Fmt.d (Year now) +:+ "-" +:+ Fmt.d02 (Month now) in
  let key := "quota:" +:+ apiKey +:+ ":" +:+ monthKey in
  let expiration :=
    Sub (Date (Year now) (Month now + 1) 1 0 0 0 0 (Loc now)) now in
  let* '(rs, err) := Exec [INCR key; EXPIRE key (formatSec expiration)] in
  match err with
  | Some e => ret (0, Some (Wrapped "failed to increment monthly quota" e))
  | None =>
      let current := reply_int (nth 0 rs RNil) in
      ret (current, None)
  end.

(** GetMonthlyQuota gets the current monthly quota count for a given API
    key. *)
Definition GetMonthlyQuota (apiKey : string) : M (Z * option error) :=
  let* now := time_Now in
  let monthKey := Fmt.d (Year now) +:+ "-" +:+ Fmt.d02 (Month now) in
  let key := "quota:" +:+ apiKey +:+ ":" +:+ monthKey in
  let* '(r, err) := call (GET key) in
  let val := reply_string r in
  match err with
  | Some RedisNil => ret (0, None)
  | Some e => ret (0, Some (Wrapped "failed to get monthly quota" e))
  | None =>
      let '(count, err) := Strconv.Atoi val in
      match err with
      | Some e => ret (0, Some (Wrapped "failed to parse monthly quota count" e))
      | None => ret (count, None)
      end
  end.

(** ValidateAPIKey checks if an API key is valid. *)
Definition ValidateAPIKey (apiKey : string) : M (bool * option error) :=
  if decide (apiKey = "") then ret (false, None)
  else ret (true, None).

(** AddValidAPIKey adds an API key to the valid keys set. *)
Definition AddValidAPIKey (apiKey : string) : M (option error) :=
  let key := "valid_keys" in
  let* '(_, err) := call (SADD key apiKey) in
  ret err.

(** RemoveValidAPIKey removes an API key from the valid keys set. *)
Definition RemoveValidAPIKey (apiKey : string) : M (option error) :=
  let key := "valid_keys" in
  let* '(_, err) := call (SREM key apiKey) in
  ret err.

(** GetValidAPIKeys gets all valid API keys. *)
Definition GetValidAPIKeys : M (list string * option error) :=
  let key := "valid_keys" in
  let* '(r, err) := call (SMEMBERS key) in
  ret (reply_strings r, err).

End Storage.

(** ** internal/limiter: RateLimiter

    The limiter's store is the world and its logger is left out: the calls
    to [r.logger] write log lines and decide nothing. *)

Module Limiter.

Import GoTime Redis World.

(** RateLimitConfig holds rate limiting configuration. *)
Record RateLimitConfig := {
  RequestsPerMinute : Z;
  RequestsPerHour : Z;
  RequestsPerDay : Z;
  MonthlyQuota : Z;
  WindowSize : Duration
}.

(** RateLimitResult represents the result of a rate limit check. *)
Record RateLimitResult := {
  Allowed : bool;
  Remaining : Z;
  ResetTime : Time;
  Limit : Z;
  Window : string;
  QuotaUsed : Z;
  QuotaLimit : Z
}.

(** RateLimiter handles rate limiting logic. *)
Record RateLimiter := { config : RateLimitConfig }.

(** The element type of the [windows] slices. *)
Record window_t := { name : string; limit : Z; window : Duration }.

Definition windows (r : RateLimiter) : list window_t :=
  [ {| name := "minute"; limit := RequestsPerMinute (config r); window := Minute |};
    {| name := "hour"; limit := RequestsPerHour (config r); window := Hour |};
    {| name := "day"; limit := RequestsPerDay (config r); window := 24 * Hour |} ].

(** [int64(window.Seconds())]: the whole seconds of a duration. *)
Definition whole_seconds (d : Duration) : Z := Z.quot d Second.

(** getWindowKey generates a window key based on the current time and
    window duration.  Outside the three named windows the code divides by
    the window's whole seconds, which panics in Go when they are 0; no call
    in the repository passes such a window, and [Z.quot] then gives 0. *)
Definition getWindowKey (now : Time) (window : Duration) : string :=
  if window =? Minute then
    Fmt.d (Year now) +:+ "-" +:+ Fmt.d02 (Month now) +:+ "-" +:+ Fmt.d02 (Day now)
    +:+ "-" +:+ Fmt.d02 (Hour_of now) +:+ "-" +:+ Fmt.d02 (Minute_of now)
  else if window =? Hour then
    Fmt.d (Year now) +:+ "-" +:+ Fmt.d02 (Month now) +:+ "-" +:+ Fmt.d02 (Day now)
    +:+ "-" +:+ Fmt.d02 (Hour_of now)
  else if window =? 24 * Hour then
    Fmt.d (Year now) +:+ "-" +:+ Fmt.d02 (Month now) +:+ "-" +:+ Fmt.d02 (Day now)
  else
    Fmt.d (Z.quot (Unix now) (whole_seconds window)).

(** getWindowResetTime calculates when the current window will reset. *)
Definition getWindowResetTime (now : Time) (window : Duration) : Time :=
  if window =? Minute then
    Date (Year now) (Month now) (Day now) (Hour_of now) (Minute_of now + 1) 0 0 (Loc now)
  else if window =? Hour then
    Date (Year now) (Month now) (Day now) (Hour_of now + 1) 0 0 0 (Loc now)
  else if window =? 24 * Hour then
    Date (Year now) (Month now) (Day now + 1) 0 0 0 0 (Loc now)
  else
    Add now window.

(** The [for _, w := range windows] loop of CheckRateLimit: [Some] is the
    [return] taken inside the loop, [None] the loop running to its end. *)
Fixpoint check_windows (r : RateLimiter) (apiKey : string) (now : Time)
    (quotaUsed : Z) (ws : list window_t)
  : M (option (option RateLimitResult * option error)) :=
  match ws with
  | [] => ret None
  | w :: ws' =>
      let windowKey := getWindowKey now (window w) in
      let* '(current, err) := Storage.GetRateLimit apiKey windowKey in
      match err with
      | Some e =>
          ret (Some (None,
            Some (Wrapped ("failed to get rate limit for " +:+ name w +:+ " window") e)))
      | None =>
          if current >=? limit w then
            let resetTime := getWindowResetTime now (window w) in
            ret (Some (Some {| Allowed := false;
                               Remaining := 0;
                               ResetTime := resetTime;
                               Limit := limit w;
                               Window := name w;
                               QuotaUsed := quotaUsed;
                               QuotaLimit := MonthlyQuota (config r) |}, None))
          else check_windows r apiKey now quotaUsed ws'
      end
  end.

(** CheckRateLimit checks if a request is allowed based on rate limits. *)
Definition CheckRateLimit (r : RateLimiter) (apiKey : string)
  : M (option RateLimitResult * option error) :=
  let* now := time_Now in
  let* '(quotaUsed, err) := Storage.GetMonthlyQuota apiKey in
  match err with
  | Some e => ret (None, Some (Wrapped "failed to get monthly quota" e))
  | None =>
      if quotaUsed >=? MonthlyQuota (config r) then
        ret (Some {| Allowed := false;
                     Remaining := 0;
                     ResetTime := Date (Year now) (Month now + 1) 1 0 0 0 0 (Loc now);
                     Limit := 0;
                     Window := "monthly";
                     QuotaUsed := quotaUsed;
                     QuotaLimit := MonthlyQuota (config r) |}, None)
      else
        let* returned := check_windows r apiKey now quotaUsed (windows r) in
        match returned with
        | Some res => ret res
        | None =>
            ret (Some {| Allowed := true;
                         Remaining := RequestsPerMinute (config r);
                         ResetTime := getWindowResetTime now Minute;
                         Limit := RequestsPerMinute (config r);
                         Window := "minute";
                         QuotaUsed := quotaUsed;
                         QuotaLimit := MonthlyQuota (config r) |}, None)
        end
  end.

(** The loop of IncrementRateLimit: [Some e] is the [return] inside it. *)
Fixpoint increment_windows (apiKey : string) (now : Time) (ws : list window_t)
  : M (option error) :=
  match ws with
  | [] => ret None
  | w :: ws' =>
      let windowKey := getWindowKey now (window w) in
      let* '(current, err) := Storage.IncrementRateLimit apiKey windowKey (limit w) in
      match err with
      | Some e =>
          ret (Some (Wrapped
            ("failed to increment rate limit for " +:+ name w +:+ " window") e))
      | None => increment_windows apiKey now ws'
      end
  end.

(** IncrementRateLimit increments the rate limit counters for all
    windows. *)
Definition IncrementRateLimit (r : RateLimiter) (apiKey : string) : M (option error) :=
  let* now := time_Now in
  let* '(_, err) := Storage.IncrementMonthlyQuota apiKey (MonthlyQuota (config r)) in
  match err with
  | Some e => ret (Some (Wrapped "failed to increment monthly quota" e))
  | None => increment_windows apiKey now (windows r)
  end.

(** One entry of the ["rate_limits"] map of GetRateLimitInfo. *)
Record WindowInfo := {
  info_current : Z;
  info_limit : Z;
  info_remaining : Z;
  info_reset_time : Time
}.

(** The map GetRateLimitInfo returns: ["monthly_quota"] with its ["used"]
    and ["limit"], and ["rate_limits"] keyed by window name. *)
Record RateLimitInfo := {
  monthly_quota_used : Z;
  monthly_quota_limit : Z;
  rate_limits : gmap string WindowInfo
}.

(** The loop of GetRateLimitInfo over the entries of ["rate_limits"]
    written so far: [inr e] is the [return] inside it. *)
Fixpoint info_windows (apiKey : string) (now : Time) (ws : list window_t)
    (acc : gmap string WindowInfo)
  : M (gmap string WindowInfo + error) :=
  match ws with
  | [] => ret (inl acc)
  | w :: ws' =>
      let windowKey := getWindowKey now (window w) in
      let* '(current, err) := Storage.GetRateLimit apiKey windowKey in
      match err with
      | Some e =>
          ret (inr (Wrapped
            ("failed to get rate limit for " +:+ name w +:+ " window") e))
      | None =>
          info_windows apiKey now ws'
            (<[name w := {| info_current := current;
                            info_limit := limit w;
                            info_remaining := GoInt.sub (limit w) current;
                            info_reset_time := getWindowResetTime now (window w) |}]> acc)
      end
  end.

(** GetRateLimitInfo gets current rate limit information for an API key. *)
Definition GetRateLimitInfo (r : RateLimiter) (apiKey : string)
  : M (option RateLimitInfo * option error) :=
  let* now := time_Now in
  let* '(quotaUsed, err) := Storage.GetMonthlyQuota apiKey in
  match err with
  | Some e => ret (None, Some (Wrapped "failed to get monthly quota" e))
  | None =>
      let* filled := info_windows apiKey now (windows r) ∅ in
      match filled with
      | inr e => ret (None, Some e)
      | inl m =>
          ret (Some {| monthly_quota_used := quotaUsed;
                       monthly_quota_limit := MonthlyQuota (config r);
                       rate_limits := m |}, None)
      end
  end.

End Limiter.

(** ** internal/middleware: AuthMiddleware *)

Module Middleware.

Import World.

(** What the handler does with the request: it answers with a JSON error
    and aborts the chain, or stores the key in the context under
    ["api_key"] and calls [c.Next()]. *)
Inductive Handled :=
| Abort (status : Z) (message code : string)
| Next (api_key : string).

(** Authenticate validates the API key from the request header;
    [header] is [c.GetHeader("X-API-Key")], empty when the header is
    absent. *)
Definition Authenticate (header : string) : M Handled :=
  let apiKey := header in
  if decide (apiKey = "") then
    ret (Abort 401 "API key is required" "MISSING_API_KEY")
  else
    let* '(valid, err) := Storage.ValidateAPIKey apiKey in
    match err with
    | Some _ => ret (Abort 500 "Internal server error" "VALIDATION_ERROR")
    | None =>
        if negb valid then ret (Abort 401 "Invalid API key" "INVALID_API_KEY")
        else ret (Next apiKey)
    end.

End Middleware.

(** ** The vocabulary of the specification *)

Module Spec.

Import GoTime Redis World Limiter.

Definition midnight (y m d : Z) (loc : Location) : Time :=
  {| year := y; month := m; day := d;
     hour := 0; minute := 0; second := 0; nanosecond := 0; location := loc |}.

(** The first instant of the calendar month after that of [t]. *)
Definition start_of_next_month (t : Time) : Time :=
  if month t =? 12 then midnight (year t + 1) 1 1 (location t)
  else midnight (year t) (month t + 1) 1 (location t).

(** The first instant of the calendar day after that of [t]. *)
Definition start_of_next_day (t : Time) : Time :=
  if day t <? daysIn (year t) (month t)
  then midnight (year t) (month t) (day t + 1) (location t)
  else start_of_next_month t.

(** The first instant of the hour after that of [t]. *)
Definition start_of_next_hour (t : Time) : Time :=
  if hour t <? 23 then
    {| year := year t; month := month t; day := day t;
       hour := hour t + 1; minute := 0; second := 0; nanosecond := 0;
       location := location t |}
  else start_of_next_day t.

(** The first instant of the minute after that of [t]. *)
Definition start_of_next_minute (t : Time) : Time :=
  if minute t <? 59 then
    {| year := year t; month := month t; day := day t;
       hour := hour t; minute := minute t + 1; second := 0; nanosecond := 0;
       location := location t |}
  else start_of_next_hour t.

(** The reset instant of the window of length [win], for the three windows
    of the policy. *)
Definition window_reset (t : Time) (win : Duration) : Time :=
  if win =? Minute then start_of_next_minute t
  else if win =? Hour then start_of_next_hour t
  else start_of_next_day t.

(** The calendar minute a time falls in. *)
Definition calendar_minute (t : Time) : Z * Z * Z * Z * Z :=
  (year t, month t, day t, hour t, minute t).

(** The two key families of the store. *)
Definition quota_key (apiKey : string) (t : Time) : string :=
  "quota:" +:+ apiKey +:+ ":" +:+ Fmt.d (year t) +:+ "-" +:+ Fmt.d02 (month t).

Definition rate_key (apiKey : string) (t : Time) (win : Duration) : string :=
  "rate:" +:+ apiKey +:+ ":" +:+ getWindowKey t win.

(** The count held under [key]: 0 when the key is not there, the integer
    its string spells; [None] when the value is no integer. *)
Definition counter (db : gmap string Entry) (key : string) : option Z :=
  match db !! key with
  | None => Some 0
  | Some {| value := VString s |} =>
      match Strconv.Atoi s with
      | (n, None) => Some n
      | (_, Some _) => None
      end
  | Some _ => None
  end.

(** The world after one more reading of the clock. *)
Definition tick (w : World) : World :=
  {| store := store w; trace := trace w; net := net w;
     clock := clock w; reads := S (reads w) |}.

(** The world after a round trip that carried [cs] and left the key space
    as it was. *)
Definition sent (cs : list Cmd) (w : World) : World :=
  {| store := store w; trace := trace w ++ [cs]; net := net w;
     clock := clock w; reads := reads w |}.

(** The world after the reads of [keys], one GET each, in order. *)
Definition gets (keys : list string) (w : World) : World :=
  fold_left (fun w k => sent [GET k] w) keys w.

(** What the [i]-th round trip from now finds when it reads [key] in the
    key space of [w]: the count, or [None] when the round trip fails or the
    value is no integer. *)
Definition read (w : World) (i : nat) (key : string) : option Z :=
  match net w (length (trace w) + i) with
  | NoFault => counter (store w) key
  | _ => None
  end.

End Spec.

(** ** Worlds to run the code in *)

Module Examples.

Import GoTime Redis World Limiter.

Definition at_time (y mo d h mi s : Z) : Time :=
  {| year := y; month := mo; day := d; hour := h; minute := mi; second := s;
     nanosecond := 0; location := UTC |}.

(** A server holding [db], a network without faults and a clock that
    stands at [t]. *)
Definition world_of (db : gmap string Entry) (t : Time) : World :=
  {| store := db; trace := []; net := fun _ => NoFault; clock := fun _ => t;
     reads := 0 |}.

(** The same with the [n]-th round trip lost on its way to the server. *)
Definition failing_at (n : nat) (w : World) : World :=
  {| store := store w; trace := trace w;
     net := fun i => if Nat.eqb i n then RequestLost else net w i;
     clock := clock w; reads := reads w |}.

(** The world [d] nanoseconds later, the clock standing at [t]. *)
Definition later (d : Duration) (t : Time) (w : World) : World :=
  {| store := elapse d (store w); trace := trace w; net := net w;
     clock := fun _ => t; reads := reads w |}.

Definition count (s : string) : Entry := {| value := VString s; ttl := None |}.

Definition policy (perMinute perHour perDay monthly : Z) : RateLimiter :=
  {| config := {| RequestsPerMinute := perMinute; RequestsPerHour := perHour;
                  RequestsPerDay := perDay; MonthlyQuota := monthly;
                  WindowSize := Minute |} |}.

(** 2024-12-31T23:59:30Z, half a minute before the year ends. *)
Definition new_years_eve : Time := at_time 2024 12 31 23 59 30.

(** 2024-01-01T10:00:00Z and one hour later. *)
Definition ten : Time := at_time 2024 1 1 10 0 0.
Definition eleven : Time := at_time 2024 1 1 11 0 0.

End Examples.

(** * Properties *)

Import GoTime Redis World GoRedis Limiter Spec.

(** ** The calendar: [time.Date] against the accessors *)

Section Calendar.

Lemma isLeap_cases y :
  (isLeap y = true /\ y mod 4 = 0 /\ (y mod 100 <> 0 \/ y mod 400 = 0))
  \/ (isLeap y = false /\ (y mod 4 <> 0 \/ (y mod 100 = 0 /\ y mod 400 <> 0))).
Proof.
  unfold isLeap.
  destruct (Z.eqb_spec (y mod 4) 0), (Z.eqb_spec (y mod 100) 0),
    (Z.eqb_spec (y mod 400) 0); simpl; lia.
Qed.

Lemma daysSinceEpoch_succ y : daysSinceEpoch (y + 1) = daysSinceEpoch y + yearLen y.
Proof.
  unfold daysSinceEpoch, yearLen. cbv zeta.
  destruct (isLeap_cases y) as [[-> H]|[-> H]]; Z.div_mod_to_equations; lia.
Qed.

Lemma daysSinceEpoch_mono y y' : y <= y' -> daysSinceEpoch y <= daysSinceEpoch y'.
Proof.
  intros H. unfold daysSinceEpoch. cbv zeta. Z.div_mod_to_equations. lia.
Qed.

(** A day number lies in one year only. *)
Lemma year_unique a da b db :
  daysSinceEpoch a + da = daysSinceEpoch b + db ->
  0 <= da < yearLen a -> 0 <= db < yearLen b -> a = b.
Proof.
  intros E Ha Hb.
  destruct (Z.lt_total a b) as [L|[L|L]]; [exfalso|assumption|exfalso].
  - pose proof (daysSinceEpoch_succ a). pose proof (daysSinceEpoch_mono (a + 1) b). lia.
  - pose proof (daysSinceEpoch_succ b). pose proof (daysSinceEpoch_mono (b + 1) a). lia.
Qed.

Lemma isLeap_shift q y : isLeap (400 * q + y) = isLeap y.
Proof.
  unfold isLeap.
  replace ((400 * q + y) mod 4) with (y mod 4)
    by (rewrite <- (Z.mod_add y (100 * q) 4) by lia; f_equal; lia).
  replace ((400 * q + y) mod 100) with (y mod 100)
    by (rewrite <- (Z.mod_add y (4 * q) 100) by lia; f_equal; lia).
  replace ((400 * q + y) mod 400) with (y mod 400)
    by (rewrite <- (Z.mod_add y q 400) by lia; f_equal; lia).
  reflexivity.
Qed.

Lemma daysSinceEpoch_shift q y :
  daysSinceEpoch (400 * q + y) = daysPer400Years * q + daysSinceEpoch y.
Proof.
  unfold daysSinceEpoch, daysPer400Years. cbv zeta.
  Z.div_mod_to_equations. lia.
Qed.

(** Cutting the 100-, 4- and 1-year cycles off a day of a 400-year cycle
    leaves the year of the cycle and the day of that year. *)
Lemma year_part r :
  0 <= r < daysPer400Years ->
  let n100 := r / daysPer100Years - r / daysPer100Years / 4 in
  let d1 := r - daysPer100Years * n100 in
  let n4 := d1 / daysPer4Years in
  let d2 := d1 - daysPer4Years * n4 in
  let n1 := d2 / 365 - d2 / 365 / 4 in
  let d3 := d2 - 365 * n1 in
  let y := 100 * n100 + 4 * n4 + n1 + 1 in
  daysSinceEpoch y + d3 = r /\ 0 <= d3 < yearLen y.
Proof.
  intros Hr n100 d1 n4 d2 n1 d3 y.
  unfold yearLen. destruct (isLeap_cases y) as [[-> H]|[-> H]];
    revert H; unfold daysSinceEpoch; subst y d3 n1 d2 n4 d1 n100;
    revert Hr; unfold daysPer400Years, daysPer100Years, daysPer4Years;
    cbv zeta; intros; Z.div_mod_to_equations; lia.
Qed.

Lemma civil_from_days_year y yd :
  0 <= yd < yearLen y ->
  civil_from_days (daysSinceEpoch y + yd)
  = let '(m, d) := month_day (isLeap y) yd in (y, m, d).
Proof.
  intros Hyd. unfold civil_from_days. cbv zeta.
  set (n := daysSinceEpoch y + yd).
  set (q := n / daysPer400Years).
  set (r := n - daysPer400Years * q).
  assert (Hr : 0 <= r < daysPer400Years).
  { subst r q. unfold daysPer400Years. Z.div_mod_to_equations. lia. }
  pose proof (year_part r Hr) as P. cbv zeta in P.
  set (n100 := r / daysPer100Years - r / daysPer100Years / 4) in *.
  set (d1 := r - daysPer100Years * n100) in *.
  set (n4 := d1 / daysPer4Years) in *.
  set (d2 := d1 - daysPer4Years * n4) in *.
  set (n1 := d2 / 365 - d2 / 365 / 4) in *.
  set (d3 := d2 - 365 * n1) in *.
  set (y0 := 100 * n100 + 4 * n4 + n1 + 1) in *.
  replace (400 * q + 100 * n100 + 4 * n4 + n1 + 1) with (400 * q + y0) by (subst y0; lia).
  destruct P as [P1 P2].
  assert (E : daysSinceEpoch (400 * q + y0) + d3 = daysSinceEpoch y + yd).
  { rewrite daysSinceEpoch_shift. fold n. subst r. lia. }
  assert (L : yearLen (400 * q + y0) = yearLen y0)
    by (unfold yearLen; rewrite isLeap_shift; reflexivity).
  assert (Y : 400 * q + y0 = y) by (eapply year_unique; [exact E | lia | lia]).
  rewrite Y in *. replace d3 with yd by lia. reflexivity.
Qed.

Lemma forallb_seqZ (f : Z -> bool) a n x :
  forallb f (seqZ a n) = true -> a <= x < a + n -> f x = true.
Proof.
  intros H Hx. rewrite forallb_forall in H. apply H.
  apply list_elem_of_In, elem_of_seqZ. exact Hx.
Qed.

Lemma month_day_check_ok :
  forallb (fun leap : bool =>
    forallb (fun m => forallb (month_day_check leap m) (seqZ 1 (daysIn_of leap m)))
      (seqZ 1 12)) [true; false] = true.
Proof. vm_compute. reflexivity. Qed.

Lemma month_day_yday leap m d :
  1 <= m <= 12 -> 1 <= d <= daysIn_of leap m ->
  0 <= yday_of leap m d < (if leap then 366 else 365)
  /\ month_day leap (yday_of leap m d) = (m, d).
Proof.
  intros Hm Hd.
  assert (C : month_day_check leap m d = true).
  { pose proof month_day_check_ok as C. rewrite forallb_forall in C.
    specialize (C leap ltac:(destruct leap; simpl; auto)).
    pose proof (forallb_seqZ _ 1 12 m C ltac:(lia)) as C2. cbv beta in C2.
    exact (forallb_seqZ _ 1 _ d C2 ltac:(lia)). }
  unfold month_day_check in C. cbv zeta in C.
  destruct (month_day leap (yday_of leap m d)) as [m' d'].
  rewrite !andb_true_iff in C. destruct C as [[? ?] [? ?]].
  split; [lia | f_equal; lia].
Qed.

(** The date of the day number of a date is that date. *)
Lemma civil_roundtrip y m d :
  1 <= m <= 12 -> 1 <= d <= daysIn y m ->
  civil_from_days (days_from_civil y m d) = (y, m, d).
Proof.
  intros Hm Hd.
  destruct (month_day_yday (isLeap y) m d Hm Hd) as [B E].
  unfold days_from_civil.
  rewrite civil_from_days_year by (unfold yearLen; exact B).
  rewrite E. reflexivity.
Qed.

Lemma daysIn_bounds y m : 1 <= m <= 12 -> 28 <= daysIn y m <= 31.
Proof.
  intros Hm. unfold daysIn, daysIn_of.
  assert (m = 1 \/ m = 2 \/ m = 3 \/ m = 4 \/ m = 5 \/ m = 6 \/ m = 7 \/ m = 8
          \/ m = 9 \/ m = 10 \/ m = 11 \/ m = 12) as C by lia.
  destruct (isLeap y);
    repeat (destruct C as [->|C]; [simpl; lia|]); subst; simpl; lia.
Qed.

(** The day after the last day of a month is the first day of the next. *)
Lemma days_from_civil_month_end y m :
  1 <= m <= 12 ->
  days_from_civil y m (daysIn y m + 1)
  = if m =? 12 then days_from_civil (y + 1) 1 1 else days_from_civil y (m + 1) 1.
Proof.
  intros Hm. unfold days_from_civil, daysIn, daysIn_of, yday_of.
  assert (m = 1 \/ m = 2 \/ m = 3 \/ m = 4 \/ m = 5 \/ m = 6 \/ m = 7 \/ m = 8
          \/ m = 9 \/ m = 10 \/ m = 11 \/ m = 12) as C by lia.
  repeat (destruct C as [->|C]; [destruct (isLeap y); simpl; lia|]).
  subst m. simpl (12 =? 12). cbv iota. rewrite daysSinceEpoch_succ. unfold yearLen.
  destruct (isLeap y), (isLeap (y + 1)); simpl; lia.
Qed.

Lemma valid_time_fields t :
  valid_time t = true ->
  1 <= month t <= 12 /\ 1 <= day t <= daysIn (year t) (month t)
  /\ 0 <= hour t < 24 /\ 0 <= minute t < 60 /\ 0 <= second t < 60
  /\ 0 <= nanosecond t < 1000000000.
Proof. unfold valid_time. rewrite !andb_true_iff. lia. Qed.

Lemma norm_small hi lo base : 0 <= lo < base -> norm hi lo base = (hi, lo).
Proof.
  intros H. unfold norm. rewrite Z.div_small, Z.mod_small by lia.
  f_equal. lia.
Qed.

(** [time.Date] on a date and a time of day in range, the day possibly one
    past the end of the month. *)
Lemma Date_day y m d h mi loc :
  1 <= m <= 12 -> 1 <= d <= daysIn y m + 1 -> 0 <= h < 24 -> 0 <= mi < 60 ->
  Date y m d h mi 0 0 loc
  = if d <=? daysIn y m then
      {| year := y; month := m; day := d; hour := h; minute := mi; second := 0;
         nanosecond := 0; location := loc |}
    else if m =? 12 then
      {| year := y + 1; month := 1; day := 1; hour := h; minute := mi; second := 0;
         nanosecond := 0; location := loc |}
    else
      {| year := y; month := m + 1; day := 1; hour := h; minute := mi; second := 0;
         nanosecond := 0; location := loc |}.
Proof.
  intros Hm Hd Hh Hmi. unfold Date.
  rewrite (norm_small y (m - 1) 12) by lia.
  rewrite (norm_small 0 0 1000000000) by lia.
  rewrite (norm_small mi 0 60) by lia.
  rewrite (norm_small h mi 60) by lia.
  rewrite (norm_small d h 24) by lia.
  replace (m - 1 + 1) with m by lia.
  replace (days_from_civil y m 1 + (d - 1)) with (days_from_civil y m d)
    by (unfold days_from_civil, yday_of; lia).
  destruct (Z.leb_spec d (daysIn y m)).
  - rewrite civil_roundtrip by lia. reflexivity.
  - replace d with (daysIn y m + 1) by lia.
    rewrite days_from_civil_month_end by lia.
    destruct (Z.eqb_spec m 12).
    + rewrite civil_roundtrip; [reflexivity | lia | pose proof (daysIn_bounds (y + 1) 1); lia].
    + rewrite civil_roundtrip; [reflexivity | lia | pose proof (daysIn_bounds y (m + 1)); lia].
Qed.

(** Month 13 is January of the next year. *)
Lemma Date_month_13 y d h mi s ns loc :
  Date y (12 + 1) d h mi s ns loc = Date (y + 1) 1 d h mi s ns loc.
Proof.
  unfold Date.
  assert (E : norm y (12 + 1 - 1) 12 = norm (y + 1) (1 - 1) 12)
    by (unfold norm; change (12 + 1 - 1) with 12; change (1 - 1) with 0;
        change (12 / 12) with 1; change (0 / 12) with 0; f_equal; lia).
  rewrite E. reflexivity.
Qed.

Ltac norm_const a b c v :=
  repeat (progress (change (norm a b c) with v; cbv beta iota)).

(** Hour 24 is the first hour of the next day, minute 60 the first minute of
    the next hour. *)
Lemma Date_hour_24 y m d loc :
  Date y m d (23 + 1) 0 0 0 loc = Date y m (d + 1) 0 0 0 0 loc.
Proof.
  unfold Date. destruct (norm y (m - 1) 12) as [y' m'].
  norm_const 0 0 1000000000 (0, 0). norm_const 0 0 60 (0, 0).
  norm_const (23 + 1) 0 60 (24, 0). norm_const 0 0 60 (0, 0).
  assert (E : norm d 24 24 = norm (d + 1) 0 24)
    by (unfold norm; change (24 / 24) with 1; change (0 / 24) with 0; f_equal; lia).
  rewrite E. reflexivity.
Qed.

Lemma Date_minute_60 y m d h loc :
  Date y m d h (59 + 1) 0 0 loc = Date y m d (h + 1) 0 0 0 loc.
Proof.
  unfold Date. destruct (norm y (m - 1) 12) as [y' m'].
  norm_const 0 0 1000000000 (0, 0). norm_const (59 + 1) 0 60 (60, 0).
  norm_const 0 0 60 (0, 0).
  assert (E : norm h 60 60 = norm (h + 1) 0 60)
    by (unfold norm; change (60 / 60) with 1; change (0 / 60) with 0; f_equal; lia).
  rewrite E. reflexivity.
Qed.

(** The reset of the monthly quota, as CheckRateLimit computes it. *)
Lemma Date_next_month t :
  valid_time t = true ->
  Date (Year t) (Month t + 1) 1 0 0 0 0 (Loc t) = start_of_next_month t.
Proof.
  intros V. apply valid_time_fields in V. destruct V as (Hm & _).
  unfold Year, Month, Loc, start_of_next_month, midnight.
  destruct (Z.eqb_spec (month t) 12) as [E|E].
  - rewrite E. rewrite Date_month_13, Date_day; try lia.
    + reflexivity.
    + pose proof (daysIn_bounds (year t + 1) 1). lia.
  - rewrite Date_day; try lia.
    + pose proof (daysIn_bounds (year t) (month t + 1)).
      destruct (Z.leb_spec 1 (daysIn (year t) (month t + 1))); [reflexivity | lia].
    + pose proof (daysIn_bounds (year t) (month t + 1)). lia.
Qed.

Lemma Date_next_day t :
  valid_time t = true ->
  Date (Year t) (Month t) (Day t + 1) 0 0 0 0 (Loc t) = start_of_next_day t.
Proof.
  intros V. apply valid_time_fields in V. destruct V as (Hm & Hd & _).
  unfold Year, Month, Day, Loc, start_of_next_day, start_of_next_month, midnight.
  rewrite Date_day by lia.
  destruct (Z.ltb_spec (day t) (daysIn (year t) (month t))),
    (Z.leb_spec (day t + 1) (daysIn (year t) (month t))); try lia; reflexivity.
Qed.

Lemma Date_next_hour t :
  valid_time t = true ->
  Date (Year t) (Month t) (Day t) (Hour_of t + 1) 0 0 0 (Loc t) = start_of_next_hour t.
Proof.
  intros V. pose proof (Date_next_day t V) as D.
  apply valid_time_fields in V. destruct V as (Hm & Hd & Hh & _).
  unfold start_of_next_hour. destruct (Z.ltb_spec (hour t) 23).
  - unfold Year, Month, Day, Hour_of, Loc. rewrite Date_day by lia.
    destruct (Z.leb_spec (day t) (daysIn (year t) (month t))); [reflexivity | lia].
  - rewrite <- D. unfold Hour_of. replace (hour t) with 23 by lia. apply Date_hour_24.
Qed.

Lemma Date_next_minute t :
  valid_time t = true ->
  Date (Year t) (Month t) (Day t) (Hour_of t) (Minute_of t + 1) 0 0 (Loc t)
  = start_of_next_minute t.
Proof.
  intros V. pose proof (Date_next_hour t V) as D.
  apply valid_time_fields in V. destruct V as (Hm & Hd & Hh & Hmi & _).
  unfold start_of_next_minute. destruct (Z.ltb_spec (minute t) 59).
  - unfold Year, Month, Day, Hour_of, Minute_of, Loc. rewrite Date_day by lia.
    destruct (Z.leb_spec (day t) (daysIn (year t) (month t))); [reflexivity | lia].
  - rewrite <- D. unfold Minute_of. replace (minute t) with 59 by lia. apply Date_minute_60.
Qed.


(** The instants the specification names, measured on the Unix clock: the
    next day, hour and minute start 86400, 3600 and 60 seconds after the start
    of the current one, and the next month starts after its last day. *)
Lemma days_from_civil_succ y m d :
  days_from_civil y m (d + 1) = days_from_civil y m d + 1.
Proof. unfold days_from_civil, yday_of. lia. Qed.

Lemma Unix_start_of_next_month t :
  valid_time t = true ->
  Unix (start_of_next_month t)
  = Unix t - (hour t * 3600 + minute t * 60 + second t)
    + (daysIn (year t) (month t) - day t + 1) * 86400.
Proof.
  intros V. apply valid_time_fields in V. destruct V as (Hm & Hd & _).
  pose proof (days_from_civil_month_end (year t) (month t) Hm) as E.
  assert (S : days_from_civil (year t) (month t) (daysIn (year t) (month t) + 1)
              = days_from_civil (year t) (month t) (day t)
                + (daysIn (year t) (month t) - day t + 1))
    by (unfold days_from_civil, yday_of; lia).
  unfold start_of_next_month, midnight, Unix.
  destruct (Z.eqb_spec (month t) 12); simpl; lia.
Qed.

Lemma Unix_start_of_next_day t :
  valid_time t = true ->
  Unix (start_of_next_day t)
  = Unix t - (hour t * 3600 + minute t * 60 + second t) + 86400.
Proof.
  intros V. pose proof (Unix_start_of_next_month t V) as M.
  apply valid_time_fields in V. destruct V as (Hm & Hd & _).
  unfold start_of_next_day.
  destruct (Z.ltb_spec (day t) (daysIn (year t) (month t))).
  - unfold midnight, Unix. simpl. rewrite days_from_civil_succ. lia.
  - rewrite M. replace (day t) with (daysIn (year t) (month t)) by lia. lia.
Qed.

Lemma Unix_start_of_next_hour t :
  valid_time t = true ->
  Unix (start_of_next_hour t) = Unix t - (minute t * 60 + second t) + 3600.
Proof.
  intros V. pose proof (Unix_start_of_next_day t V) as D.
  apply valid_time_fields in V. destruct V as (Hm & Hd & Hh & _).
  unfold start_of_next_hour. destruct (Z.ltb_spec (hour t) 23).
  - unfold Unix. simpl. lia.
  - rewrite D. lia.
Qed.

Lemma Unix_start_of_next_minute t :
  valid_time t = true ->
  Unix (start_of_next_minute t) = Unix t - second t + 60.
Proof.
  intros V. pose proof (Unix_start_of_next_hour t V) as D.
  apply valid_time_fields in V. destruct V as (Hm & Hd & Hh & Hmi & _).
  unfold start_of_next_minute. destruct (Z.ltb_spec (minute t) 59).
  - unfold Unix. simpl. lia.
  - rewrite D. lia.
Qed.

End Calendar.

(** [time.Date] on the examples of its documentation, and the Unix clock. *)
Example Date_october_32 :
  Date 2023 10 32 0 0 0 0 UTC = Examples.at_time 2023 11 1 0 0 0.
Proof. reflexivity. Qed.

Example Date_leap_second_carry :
  Date 2024 2 28 23 59 60 0 UTC = Examples.at_time 2024 2 29 0 0 0.
Proof. reflexivity. Qed.

Example Unix_2024 : Unix (Examples.at_time 2024 1 1 0 0 0) = 1704067200.
Proof. reflexivity. Qed.

Example Add_across_the_year :
  Add (Examples.at_time 2023 12 31 23 59 59) Second = Examples.at_time 2024 1 1 0 0 0.
Proof. reflexivity. Qed.

(** ** Formatting: the keys [fmt.Sprintf] builds *)

Section Formatting.

Lemma append_cons c (s t : string) : String c s +:+ t = String c (s +:+ t).
Proof. reflexivity. Qed.

Lemma length_append (s t : string) :
  String.length (s +:+ t) = (String.length s + String.length t)%nat.
Proof.
  induction s as [|c s IH]; [reflexivity|].
  rewrite append_cons. simpl. rewrite IH. reflexivity.
Qed.

Lemma append_nil_r (s : string) : s +:+ "" = s.
Proof.
  induction s as [|c s IH]; [reflexivity|].
  rewrite append_cons, IH. reflexivity.
Qed.

Lemma append_inj_length (s1 s2 t1 t2 : string) :
  String.length s1 = String.length s2 ->
  s1 +:+ t1 = s2 +:+ t2 -> s1 = s2 /\ t1 = t2.
Proof.
  revert s2. induction s1 as [|c s1 IH]; intros [|c' s2] L E;
    try discriminate L.
  - split; [reflexivity | exact E].
  - rewrite !append_cons in E. injection E as -> E. injection L as L.
    destruct (IH s2 L E) as [-> ->]. split; reflexivity.
Qed.

Lemma append_inj_suffix (s1 s2 t1 t2 : string) :
  String.length t1 = String.length t2 ->
  s1 +:+ t1 = s2 +:+ t2 -> s1 = s2 /\ t1 = t2.
Proof.
  intros L E. apply append_inj_length; [|exact E].
  apply (f_equal String.length) in E.
  rewrite !length_append in E. lia.
Qed.

(** [%02d] of a number below 100 is its two digits. *)
Lemma d02_check_ok :
  forallb (fun n => match Strconv.digits (Fmt.d02 n) 0 with
                    | Some k => (k =? n) && (String.length (Fmt.d02 n) =? 2)%nat
                    | None => false
                    end) (seqZ 0 100) = true.
Proof. vm_compute. reflexivity. Qed.

Lemma d02_digits n :
  0 <= n < 100 ->
  Strconv.digits (Fmt.d02 n) 0 = Some n /\ String.length (Fmt.d02 n) = 2%nat.
Proof.
  intros H. pose proof (forallb_seqZ _ 0 100 n d02_check_ok ltac:(lia)) as C.
  cbv beta in C. destruct (Strconv.digits (Fmt.d02 n) 0); [|discriminate].
  apply andb_true_iff in C. destruct C as [C1 C2].
  apply Z.eqb_eq in C1. apply Nat.eqb_eq in C2. subst. split; [reflexivity | exact C2].
Qed.

Lemma d02_inj n m : 0 <= n < 100 -> 0 <= m < 100 -> Fmt.d02 n = Fmt.d02 m -> n = m.
Proof.
  intros Hn Hm E. destruct (d02_digits n Hn) as [Dn _], (d02_digits m Hm) as [Dm _].
  rewrite E in Dn. congruence.
Qed.

Lemma d_inj n m : Fmt.d n = Fmt.d m -> n = m.
Proof. unfold Fmt.d. apply pretty_Z_inj. Qed.

(** One more field of a key: [s ++ "-" ++ %02d]. *)
Lemma key_field_inj n m (r1 r2 : string) :
  0 <= n < 100 -> 0 <= m < 100 ->
  Fmt.d02 n +:+ r1 = Fmt.d02 m +:+ r2 -> n = m /\ r1 = r2.
Proof.
  intros Hn Hm E.
  destruct (append_inj_length (Fmt.d02 n) (Fmt.d02 m) r1 r2) as [E1 E2].
  - destruct (d02_digits n Hn) as [_ ->], (d02_digits m Hm) as [_ ->]. reflexivity.
  - exact E.
  - split; [apply d02_inj; assumption | exact E2].
Qed.

Lemma valid_time_below_100 t :
  valid_time t = true ->
  0 <= month t < 100 /\ 0 <= day t < 100 /\ 0 <= hour t < 100 /\ 0 <= minute t < 100.
Proof.
  intros V. apply valid_time_fields in V. destruct V as (Hm & Hd & Hh & Hmi & _).
  pose proof (daysIn_bounds (year t) (month t) Hm). lia.
Qed.

(** The minute key determines the calendar minute. *)
Lemma minute_key_inj t1 t2 :
  valid_time t1 = true -> valid_time t2 = true ->
  getWindowKey t1 Minute = getWindowKey t2 Minute ->
  calendar_minute t1 = calendar_minute t2.
Proof.
  intros V1 V2 E.
  apply valid_time_below_100 in V1, V2.
  destruct V1 as (M1 & D1 & H1 & I1), V2 as (M2 & D2 & H2 & I2).
  unfold getWindowKey in E. change (Minute =? Minute) with true in E. cbv iota in E.
  unfold Year, Month, Day, Hour_of, Minute_of in E.
  apply append_inj_suffix in E.
  - destruct E as [Ey E]. apply d_inj in Ey.
    injection E as E. apply key_field_inj in E; [|assumption..]. destruct E as [Em E].
    injection E as E. apply key_field_inj in E; [|assumption..]. destruct E as [Ed E].
    injection E as E. apply key_field_inj in E; [|assumption..]. destruct E as [Eh E].
    injection E as E.
    assert (Ei : minute t1 = minute t2).
    { apply d02_inj; [assumption..|exact E]. }
    unfold calendar_minute. congruence.
  - rewrite !length_append. simpl.
    destruct (d02_digits _ M1) as [_ ->], (d02_digits _ M2) as [_ ->],
      (d02_digits _ D1) as [_ ->], (d02_digits _ D2) as [_ ->],
      (d02_digits _ H1) as [_ ->], (d02_digits _ H2) as [_ ->],
      (d02_digits _ I1) as [_ ->], (d02_digits _ I2) as [_ ->]. reflexivity.
Qed.

End Formatting.

(** ** Reads of the store *)

Section Reads.

(** A GET leaves the key space as it is, whatever comes back. *)
Lemma call_GET k w :
  call (GET k) w
  = (match net w (length (trace w)) with
     | NoFault =>
         match store w !! k with
         | None => (RNil, Some RedisNil)
         | Some {| value := VString s |} => (RBulk s, None)
         | Some {| value := VSet _ |} => (RErr WRONGTYPE, Some (RedisError WRONGTYPE))
         end
     | _ => (RNil, Some NetError)
     end, sent [GET k] w).
Proof.
  unfold call, bind, roundtrip, sent, ret. simpl.
  destruct (net w (length (trace w))); try reflexivity;
    destruct (store w !! k) as [[[s|m] t]|]; reflexivity.
Qed.

(** A read of a window counter: one GET, and the count or an error. *)
Lemma GetRateLimit_read apiKey k w :
  let key := "rate:" +:+ apiKey +:+ ":" +:+ k in
  exists res, Storage.GetRateLimit apiKey k w = (res, sent [GET key] w)
    /\ match read w 0 key with
       | Some n => res = (n, None)
       | None => exists e, res = (0, Some e)
       end.
Proof.
  intros key. unfold Storage.GetRateLimit, bind. fold key. rewrite call_GET.
  unfold read, counter. rewrite Nat.add_0_r.
  destruct (net w (length (trace w))); simpl; eauto.
  destruct (store w !! key) as [[[s|m] t]|]; simpl; eauto.
  destruct (Strconv.Atoi s) as [n [e|]]; simpl; eauto.
Qed.

(** A read of the monthly quota: the clock, then one GET. *)
Lemma GetMonthlyQuota_read apiKey w :
  let key := quota_key apiKey (clock w (reads w)) in
  exists res, Storage.GetMonthlyQuota apiKey w = (res, sent [GET key] (tick w))
    /\ match read w 0 key with
       | Some n => res = (n, None)
       | None => exists e, res = (0, Some e)
       end.
Proof.
  intros key. unfold Storage.GetMonthlyQuota, bind, time_Now.
  change (Fmt.d (Year (clock w (reads w))) +:+ "-" +:+ Fmt.d02 (Month (clock w (reads w))))
    with (Fmt.d (year (clock w (reads w))) +:+ "-" +:+ Fmt.d02 (month (clock w (reads w)))).
  fold (quota_key apiKey (clock w (reads w))). fold key. fold (tick w).
  rewrite call_GET. unfold read, counter. rewrite Nat.add_0_r. simpl.
  destruct (net w (length (trace w))); simpl; eauto.
  destruct (store w !! key) as [[[s|m] t]|]; simpl; eauto.
  destruct (Strconv.Atoi s) as [n [e|]]; simpl; eauto.
Qed.

(** Reads seen from an earlier world: ticks and GETs leave the key space
    and the network as they are and move the round trips on by one. *)
Lemma read_tick w i key : read (tick w) i key = read w i key.
Proof. reflexivity. Qed.

Lemma read_sent cs w i key : read (sent cs w) i key = read w (S i) key.
Proof.
  unfold read, sent. simpl. rewrite length_app. simpl.
  replace (length (trace w) + 1 + i)%nat with (length (trace w) + S i)%nat by lia.
  reflexivity.
Qed.

End Reads.

(** ** CheckRateLimit, case by case *)

Section Check.

Variable r : RateLimiter.
Variable apiKey : string.

Let cfg := config r.

(** The verdicts CheckRateLimit builds. *)
Let deny (reset : Time) (lim : Z) (win : string) (used : Z) : RateLimitResult :=
  {| Allowed := false; Remaining := 0; ResetTime := reset; Limit := lim;
     Window := win; QuotaUsed := used; QuotaLimit := MonthlyQuota cfg |}.

Let allow (reset : Time) (used : Z) : RateLimitResult :=
  {| Allowed := true; Remaining := RequestsPerMinute cfg; ResetTime := reset;
     Limit := RequestsPerMinute cfg; Window := "minute"; QuotaUsed := used;
     QuotaLimit := MonthlyQuota cfg |}.

(** The whole of CheckRateLimit as a decision over what its reads find: the
    quota first, then minute, hour and day, each read made only when the ones
    before it came back below their limits. *)
Lemma CheckRateLimit_cases w :
  let now := clock w (reads w) in
  let qk := quota_key apiKey (clock w (S (reads w))) in
  let mk := rate_key apiKey now Minute in
  let hk := rate_key apiKey now Hour in
  let dk := rate_key apiKey now (24 * Hour) in
  let w0 := tick (tick w) in
  match read w 0 qk with
  | None => exists e, CheckRateLimit r apiKey w = ((None, Some e), gets [qk] w0)
  | Some used =>
    if used >=? MonthlyQuota cfg then
      CheckRateLimit r apiKey w
      = ((Some (deny (Date (Year now) (Month now + 1) 1 0 0 0 0 (Loc now)) 0 "monthly" used),
          None), gets [qk] w0)
    else
    match read w 1 mk with
    | None => exists e, CheckRateLimit r apiKey w = ((None, Some e), gets [qk; mk] w0)
    | Some cm =>
      if cm >=? RequestsPerMinute cfg then
        CheckRateLimit r apiKey w
        = ((Some (deny (getWindowResetTime now Minute) (RequestsPerMinute cfg) "minute" used),
            None), gets [qk; mk] w0)
      else
      match read w 2 hk with
      | None => exists e, CheckRateLimit r apiKey w = ((None, Some e), gets [qk; mk; hk] w0)
      | Some ch =>
        if ch >=? RequestsPerHour cfg then
          CheckRateLimit r apiKey w
          = ((Some (deny (getWindowResetTime now Hour) (RequestsPerHour cfg) "hour" used),
              None), gets [qk; mk; hk] w0)
        else
        match read w 3 dk with
        | None =>
            exists e, CheckRateLimit r apiKey w = ((None, Some e), gets [qk; mk; hk; dk] w0)
        | Some cd =>
          if cd >=? RequestsPerDay cfg then
            CheckRateLimit r apiKey w
            = ((Some (deny (getWindowResetTime now (24 * Hour)) (RequestsPerDay cfg) "day" used),
                None), gets [qk; mk; hk; dk] w0)
          else
            CheckRateLimit r apiKey w
            = ((Some (allow (getWindowResetTime now Minute) used), None),
               gets [qk; mk; hk; dk] w0)
        end
      end
    end
  end.
Proof.
  intros now qk mk hk dk w0.
  unfold CheckRateLimit, bind, time_Now. fold (tick w). fold now.
  destruct (GetMonthlyQuota_read apiKey (tick w)) as (res & -> & Hq).
  cbv zeta in Hq. rewrite read_tick in Hq.
  change (clock (tick w) (reads (tick w))) with (clock w (S (reads w))) in *.
  fold qk in Hq |- *. fold w0. change (sent [GET qk] w0) with (gets [qk] w0).
  destruct (read w 0 qk) as [used|]; [subst res|destruct Hq as [e ->]; eauto].
  fold cfg. destruct (used >=? MonthlyQuota cfg); [reflexivity|].
  unfold windows. fold cfg. cbn [check_windows name limit window]. unfold bind.
  (* minute *)
  destruct (GetRateLimit_read apiKey (getWindowKey now Minute) (gets [qk] w0))
    as (res & -> & Hm). cbv zeta in Hm. fold (rate_key apiKey now Minute) in Hm |- *.
  fold mk in Hm |- *. unfold gets in Hm at 1. cbn [fold_left] in Hm.
  rewrite read_sent in Hm. unfold w0 in Hm at 1. rewrite !read_tick in Hm.
  change (sent [GET mk] (gets [qk] w0)) with (gets [qk; mk] w0).
  destruct (read w 1 mk) as [cm|]; [subst res|destruct Hm as [e ->]; eauto].
  destruct (cm >=? RequestsPerMinute cfg); [reflexivity|].
  (* hour *)
  destruct (GetRateLimit_read apiKey (getWindowKey now Hour) (gets [qk; mk] w0))
    as (res & -> & Hh). cbv zeta in Hh. fold (rate_key apiKey now Hour) in Hh |- *.
  fold hk in Hh |- *. unfold gets in Hh at 1. cbn [fold_left] in Hh.
  rewrite !read_sent in Hh. unfold w0 in Hh at 1. rewrite !read_tick in Hh.
  change (sent [GET hk] (gets [qk; mk] w0)) with (gets [qk; mk; hk] w0).
  destruct (read w 2 hk) as [ch|]; [subst res|destruct Hh as [e ->]; eauto].
  destruct (ch >=? RequestsPerHour cfg); [reflexivity|].
  (* day *)
  destruct (GetRateLimit_read apiKey (getWindowKey now (24 * Hour)) (gets [qk; mk; hk] w0))
    as (res & -> & Hd). cbv zeta in Hd. fold (rate_key apiKey now (24 * Hour)) in Hd |- *.
  fold dk in Hd |- *. unfold gets in Hd at 1. cbn [fold_left] in Hd.
  rewrite !read_sent in Hd. unfold w0 in Hd at 1. rewrite !read_tick in Hd.
  change (sent [GET dk] (gets [qk; mk; hk] w0)) with (gets [qk; mk; hk; dk] w0).
  destruct (read w 3 dk) as [cd|]; [subst res|destruct Hd as [e ->]; eauto].
  destruct (cd >=? RequestsPerDay cfg); reflexivity.
Qed.


(** GetRateLimitInfo makes the same four reads and compares nothing: an
    error when a read fails, the snapshot otherwise. *)
Lemma GetRateLimitInfo_cases w :
  let now := clock w (reads w) in
  let qk := quota_key apiKey (clock w (S (reads w))) in
  let mk := rate_key apiKey now Minute in
  let hk := rate_key apiKey now Hour in
  let dk := rate_key apiKey now (24 * Hour) in
  let w0 := tick (tick w) in
  let entry (lim cur : Z) (win : Duration) :=
    {| info_current := cur; info_limit := lim; info_remaining := GoInt.sub lim cur;
       info_reset_time := getWindowResetTime now win |} in
  match read w 0 qk with
  | None => exists e, GetRateLimitInfo r apiKey w = ((None, Some e), gets [qk] w0)
  | Some used =>
    match read w 1 mk with
    | None => exists e, GetRateLimitInfo r apiKey w = ((None, Some e), gets [qk; mk] w0)
    | Some cm =>
      match read w 2 hk with
      | None => exists e, GetRateLimitInfo r apiKey w = ((None, Some e), gets [qk; mk; hk] w0)
      | Some ch =>
        match read w 3 dk with
        | None =>
            exists e, GetRateLimitInfo r apiKey w = ((None, Some e), gets [qk; mk; hk; dk] w0)
        | Some cd =>
            GetRateLimitInfo r apiKey w
            = ((Some {| monthly_quota_used := used;
                        monthly_quota_limit := MonthlyQuota cfg;
                        rate_limits :=
                          <["day" := entry (RequestsPerDay cfg) cd (24 * Hour)]>
                          (<["hour" := entry (RequestsPerHour cfg) ch Hour]>
                           (<["minute" := entry (RequestsPerMinute cfg) cm Minute]> ∅)) |},
                None), gets [qk; mk; hk; dk] w0)
        end
      end
    end
  end.
Proof.
  intros now qk mk hk dk w0 entry.
  unfold GetRateLimitInfo, bind, time_Now. fold (tick w). fold now.
  destruct (GetMonthlyQuota_read apiKey (tick w)) as (res & -> & Hq).
  cbv zeta in Hq. rewrite read_tick in Hq.
  change (clock (tick w) (reads (tick w))) with (clock w (S (reads w))) in *.
  fold qk in Hq |- *. fold w0. change (sent [GET qk] w0) with (gets [qk] w0).
  destruct (read w 0 qk) as [used|]; [subst res|destruct Hq as [e ->]; eauto].
  unfold windows. fold cfg. cbn [info_windows name limit window]. unfold bind.
  destruct (GetRateLimit_read apiKey (getWindowKey now Minute) (gets [qk] w0))
    as (res & -> & Hm). cbv zeta in Hm. fold (rate_key apiKey now Minute) in Hm |- *.
  fold mk in Hm |- *. unfold gets in Hm at 1. cbn [fold_left] in Hm.
  rewrite read_sent in Hm. unfold w0 in Hm at 1. rewrite !read_tick in Hm.
  change (sent [GET mk] (gets [qk] w0)) with (gets [qk; mk] w0).
  destruct (read w 1 mk) as [cm|]; [subst res|destruct Hm as [e ->]; eauto].
  destruct (GetRateLimit_read apiKey (getWindowKey now Hour) (gets [qk; mk] w0))
    as (res & -> & Hh). cbv zeta in Hh. fold (rate_key apiKey now Hour) in Hh |- *.
  fold hk in Hh |- *. unfold gets in Hh at 1. cbn [fold_left] in Hh.
  rewrite !read_sent in Hh. unfold w0 in Hh at 1. rewrite !read_tick in Hh.
  change (sent [GET hk] (gets [qk; mk] w0)) with (gets [qk; mk; hk] w0).
  destruct (read w 2 hk) as [ch|]; [subst res|destruct Hh as [e ->]; eauto].
  destruct (GetRateLimit_read apiKey (getWindowKey now (24 * Hour)) (gets [qk; mk; hk] w0))
    as (res & -> & Hd). cbv zeta in Hd. fold (rate_key apiKey now (24 * Hour)) in Hd |- *.
  fold dk in Hd |- *. unfold gets in Hd at 1. cbn [fold_left] in Hd.
  rewrite !read_sent in Hd. unfold w0 in Hd at 1. rewrite !read_tick in Hd.
  change (sent [GET dk] (gets [qk; mk; hk] w0)) with (gets [qk; mk; hk; dk] w0).
  destruct (read w 3 dk) as [cd|]; [subst res|destruct Hd as [e ->]; eauto].
  reflexivity.
Qed.

End Check.

(** Reads extend the trace by GETs and touch nothing else. *)
Lemma store_gets keys w : store (gets keys w) = store w.
Proof. revert w. induction keys as [|k keys IH]; intros w; [reflexivity|]. simpl. rewrite IH. reflexivity. Qed.

Lemma trace_gets keys w :
  trace (gets keys w) = trace w ++ map (fun k => [GET k]) keys.
Proof.
  revert w. induction keys as [|k keys IH]; intros w; simpl.
  - rewrite app_nil_r. reflexivity.
  - rewrite IH. simpl. rewrite <- app_assoc. reflexivity.
Qed.

(** ** The admission check *)

Lemma getWindowResetTime_window_reset now win :
  valid_time now = true ->
  win = Minute \/ win = Hour \/ win = 24 * Hour ->
  getWindowResetTime now win = window_reset now win.
Proof.
  intros V [-> | [-> | ->]]; unfold getWindowResetTime, window_reset.
  - change (Minute =? Minute) with true. cbv iota. apply Date_next_minute, V.
  - change (Hour =? Minute) with false. change (Hour =? Hour) with true. cbv iota.
    apply Date_next_hour, V.
  - change (24 * Hour =? Minute) with false. change (24 * Hour =? Hour) with false.
    change (24 * Hour =? 24 * Hour) with true. cbv iota. apply Date_next_day, V.
Qed.

(** C1: when the read of the caller's monthly quota counter comes back with
    a count at or above the configured monthly quota, CheckRateLimit returns,
    without error, the deny verdict of the "monthly" window: Allowed false,
    Limit 0, Remaining 0, ResetTime the first instant of the next calendar
    month, QuotaUsed and QuotaLimit filled in.  The world it leaves has made
    one round trip, the GET of the quota key: the minute, hour and day counters
    are not read, and the statement holds for every key space. *)
Theorem C1_monthly_quota_exhausted r apiKey w used :
  let now := clock w (reads w) in
  let qk := quota_key apiKey (clock w (S (reads w))) in
  valid_time now = true ->
  read w 0 qk = Some used ->
  used >= MonthlyQuota (config r) ->
  CheckRateLimit r apiKey w
  = ((Some {| Allowed := false; Remaining := 0;
              ResetTime := start_of_next_month now;
              Limit := 0; Window := "monthly";
              QuotaUsed := used; QuotaLimit := MonthlyQuota (config r) |}, None),
     gets [qk] (tick (tick w))).
Proof.
  intros now qk V Hq Hge.
  pose proof (CheckRateLimit_cases r apiKey w) as C. cbv zeta in C.
  fold now qk in C. rewrite Hq in C.
  destruct (Z.geb_spec used (MonthlyQuota (config r))); [|lia].
  rewrite C. rewrite (Date_next_month now V). reflexivity.
Qed.

(** Scenario B of the specification: quota 1, one request used in January
    2024; the windows are far from their limits. *)
Lemma C1_monthly_quota_exhausted_witness :
  let w := Examples.world_of {[ "quota:k1:2024-01" := Examples.count "1" ]} Examples.ten in
  CheckRateLimit (Examples.policy 2 100 1000 1) "k1" w
  = ((Some {| Allowed := false; Remaining := 0;
              ResetTime := Examples.at_time 2024 2 1 0 0 0;
              Limit := 0; Window := "monthly"; QuotaUsed := 1; QuotaLimit := 1 |}, None),
     gets ["quota:k1:2024-01"] (tick (tick w))).
Proof.
  intros w.
  exact (C1_monthly_quota_exhausted (Examples.policy 2 100 1000 1) "k1" w 1
           eq_refl eq_refl ltac:(discriminate)).
Defined.

(** C2: with the monthly quota not exhausted, the windows are tried in the
    order minute, hour, day.  When the windows before the [i]-th are read
    below their limits and the [i]-th is read at or above its limit,
    CheckRateLimit returns the deny verdict of that window: Allowed false,
    Remaining 0, Limit the window's limit, ResetTime the window's reset
    instant, QuotaUsed and QuotaLimit from the quota read.  The world it
    leaves has read the quota and the windows up to the [i]-th and no later
    one. *)
Theorem C2_first_exhausted_window r apiKey w used i wi c :
  let now := clock w (reads w) in
  let qk := quota_key apiKey (clock w (S (reads w))) in
  let key (x : window_t) := rate_key apiKey now (window x) in
  valid_time now = true ->
  read w 0 qk = Some used ->
  used < MonthlyQuota (config r) ->
  windows r !! i = Some wi ->
  (forall j wj, (j < i)%nat -> windows r !! j = Some wj ->
     exists cj, read w (S j) (key wj) = Some cj /\ cj < limit wj) ->
  read w (S i) (key wi) = Some c ->
  c >= limit wi ->
  map name (windows r) = ["minute"; "hour"; "day"]
  /\ CheckRateLimit r apiKey w
     = ((Some {| Allowed := false; Remaining := 0;
                 ResetTime := window_reset now (window wi);
                 Limit := limit wi; Window := name wi;
                 QuotaUsed := used; QuotaLimit := MonthlyQuota (config r) |}, None),
        gets (qk :: map key (take (S i) (windows r))) (tick (tick w))).
Proof.
  intros now qk key V Hq Hlt Hi Hbefore Hc Hge.
  split; [reflexivity|].
  pose proof (CheckRateLimit_cases r apiKey w) as C. cbv zeta in C.
  fold now qk in C. rewrite Hq in C.
  destruct (Z.geb_spec used (MonthlyQuota (config r))); [lia|].
  destruct i as [|[|[|i]]]; cbn in Hi; try discriminate Hi;
    injection Hi as <-; unfold key in *; cbn [window limit name] in *.
  - rewrite Hc in C.
    destruct (Z.geb_spec c (RequestsPerMinute (config r))); [|lia].
    rewrite C, getWindowResetTime_window_reset by auto. reflexivity.
  - destruct (Hbefore 0%nat _ ltac:(lia) eq_refl) as (cm & Hm & Lm).
    cbn [window limit name] in Hm, Lm. rewrite Hm in C.
    destruct (Z.geb_spec cm (RequestsPerMinute (config r))); [lia|].
    rewrite Hc in C.
    destruct (Z.geb_spec c (RequestsPerHour (config r))); [|lia].
    rewrite C, getWindowResetTime_window_reset by auto. reflexivity.
  - destruct (Hbefore 0%nat _ ltac:(lia) eq_refl) as (cm & Hm & Lm).
    destruct (Hbefore 1%nat _ ltac:(lia) eq_refl) as (ch & Hh & Lh).
    cbn [window limit name] in Hm, Lm, Hh, Lh. rewrite Hm in C.
    destruct (Z.geb_spec cm (RequestsPerMinute (config r))); [lia|].
    rewrite Hh in C.
    destruct (Z.geb_spec ch (RequestsPerHour (config r))); [lia|].
    rewrite Hc in C.
    destruct (Z.geb_spec c (RequestsPerDay (config r))); [|lia].
    rewrite C, getWindowResetTime_window_reset by auto. reflexivity.
Qed.

(** The window precedence scenario of the specification: the minute limit 1
    is used up while hour and day are not; only the quota and the minute
    counter are read. *)
Lemma C2_first_exhausted_window_witness :
  let w := Examples.world_of
             {[ "rate:k1:2024-12-31-23-59" := Examples.count "1";
                "rate:k1:2024-12-31-23" := Examples.count "1";
                "rate:k1:2024-12-31" := Examples.count "1";
                "quota:k1:2024-12" := Examples.count "1" ]}
             Examples.new_years_eve in
  map name (windows (Examples.policy 1 100 1000 10000)) = ["minute"; "hour"; "day"]
  /\ CheckRateLimit (Examples.policy 1 100 1000 10000) "k1" w
     = ((Some {| Allowed := false; Remaining := 0;
                 ResetTime := Examples.at_time 2025 1 1 0 0 0;
                 Limit := 1; Window := "minute";
                 QuotaUsed := 1; QuotaLimit := 10000 |}, None),
        gets ["quota:k1:2024-12"; "rate:k1:2024-12-31-23-59"] (tick (tick w))).
Proof.
  intros w.
  refine (C2_first_exhausted_window (Examples.policy 1 100 1000 10000) "k1" w 1 0
            {| name := "minute"; limit := 1; window := Minute |} 1
            eq_refl eq_refl eq_refl eq_refl _ eq_refl ltac:(discriminate)).
  intros j wj Hj. inversion Hj.
Defined.

(** C4: when the quota and the minute, hour and day counters are all read
    strictly below their limits, CheckRateLimit returns the allow verdict:
    Allowed true, Window "minute", Limit the configured per-minute limit,
    Remaining that same configured limit (not the limit less the count read),
    ResetTime the start of the next minute, QuotaUsed and QuotaLimit filled
    in. *)
Theorem C4_all_below_limits_allow r apiKey w used cm ch cd :
  let now := clock w (reads w) in
  let qk := quota_key apiKey (clock w (S (reads w))) in
  let mk := rate_key apiKey now Minute in
  let hk := rate_key apiKey now Hour in
  let dk := rate_key apiKey now (24 * Hour) in
  valid_time now = true ->
  read w 0 qk = Some used -> used < MonthlyQuota (config r) ->
  read w 1 mk = Some cm -> cm < RequestsPerMinute (config r) ->
  read w 2 hk = Some ch -> ch < RequestsPerHour (config r) ->
  read w 3 dk = Some cd -> cd < RequestsPerDay (config r) ->
  CheckRateLimit r apiKey w
  = ((Some {| Allowed := true;
              Remaining := RequestsPerMinute (config r);
              ResetTime := start_of_next_minute now;
              Limit := RequestsPerMinute (config r);
              Window := "minute";
              QuotaUsed := used; QuotaLimit := MonthlyQuota (config r) |}, None),
     gets [qk; mk; hk; dk] (tick (tick w))).
Proof.
  intros now qk mk hk dk V Hq Lq Hm Lm Hh Lh Hd Ld.
  pose proof (CheckRateLimit_cases r apiKey w) as C. cbv zeta in C.
  fold now qk mk hk dk in C. rewrite Hq in C.
  destruct (Z.geb_spec used (MonthlyQuota (config r))); [lia|].
  rewrite Hm in C. destruct (Z.geb_spec cm (RequestsPerMinute (config r))); [lia|].
  rewrite Hh in C. destruct (Z.geb_spec ch (RequestsPerHour (config r))); [lia|].
  rewrite Hd in C. destruct (Z.geb_spec cd (RequestsPerDay (config r))); [lia|].
  rewrite C. unfold getWindowResetTime. change (Minute =? Minute) with true. cbv iota.
  rewrite (Date_next_minute now V). reflexivity.
Qed.

(** One request already counted against a per-minute limit of 2: the verdict
    still reports 2 remaining. *)
Lemma C4_all_below_limits_allow_witness :
  let w := Examples.world_of
             {[ "rate:k1:2024-01-01-10-00" := Examples.count "1";
                "rate:k1:2024-01-01-10" := Examples.count "1";
                "rate:k1:2024-01-01" := Examples.count "1";
                "quota:k1:2024-01" := Examples.count "1" ]}
             Examples.ten in
  CheckRateLimit (Examples.policy 2 100 1000 10000) "k1" w
  = ((Some {| Allowed := true; Remaining := 2;
              ResetTime := Examples.at_time 2024 1 1 10 1 0;
              Limit := 2; Window := "minute";
              QuotaUsed := 1; QuotaLimit := 10000 |}, None),
     gets ["quota:k1:2024-01"; "rate:k1:2024-01-01-10-00"; "rate:k1:2024-01-01-10";
           "rate:k1:2024-01-01"] (tick (tick w))).
Proof.
  intros w.
  exact (C4_all_below_limits_allow (Examples.policy 2 100 1000 10000) "k1" w 1 1 1 1
           eq_refl eq_refl eq_refl eq_refl eq_refl eq_refl eq_refl eq_refl eq_refl).
Defined.

(** C6: CheckRateLimit makes its reads in the order quota, minute, hour,
    day and stops after [k] of them.  When one of the reads it made failed,
    because the round trip failed or the stored value is no integer, it
    returns an error and no verdict.  A verdict comes without error, and a
    verdict with Allowed true only after all four reads came back with a
    count. *)
Theorem C6_fail_closed r apiKey w res err w' :
  let now := clock w (reads w) in
  let keys := [quota_key apiKey (clock w (S (reads w)));
               rate_key apiKey now Minute;
               rate_key apiKey now Hour;
               rate_key apiKey now (24 * Hour)] in
  CheckRateLimit r apiKey w = ((res, err), w') ->
  exists k, (1 <= k <= 4)%nat
    /\ w' = gets (take k keys) (tick (tick w))
    /\ ((exists i key, (i < k)%nat /\ keys !! i = Some key /\ read w i key = None) ->
        res = None /\ err <> None)
    /\ (forall v, res = Some v ->
          err = None
          /\ (Allowed v = true ->
              k = 4%nat
              /\ forall i key, keys !! i = Some key -> is_Some (read w i key))).
Proof.
  intros now keys H.
  pose proof (CheckRateLimit_cases r apiKey w) as C. cbv zeta in C. fold now in C.
  destruct (read w 0 _) as [used|] eqn:Rq.
  2:{ destruct C as [e C]. rewrite C in H. injection H as <- <- <-.
      exists 1%nat. split; [lia|]. split; [reflexivity|].
      split; [intros _; split; [reflexivity|discriminate] | intros v Hv; discriminate Hv]. }
  destruct (used >=? MonthlyQuota (config r)).
  { rewrite C in H. injection H as <- <- <-. exists 1%nat.
    split; [lia|]. split; [reflexivity|]. split.
    - intros (i & key & Hi & Hk & Hr). destruct i as [|i]; [|lia].
      cbn in Hk. injection Hk as <-. congruence.
    - intros v [= <-]. split; [reflexivity|]. cbn. discriminate. }
  destruct (read w 1 _) as [cm|] eqn:Rm.
  2:{ destruct C as [e C]. rewrite C in H. injection H as <- <- <-.
      exists 2%nat. split; [lia|]. split; [reflexivity|].
      split; [intros _; split; [reflexivity|discriminate] | intros v Hv; discriminate Hv]. }
  destruct (cm >=? RequestsPerMinute (config r)).
  { rewrite C in H. injection H as <- <- <-. exists 2%nat.
    split; [lia|]. split; [reflexivity|]. split.
    - intros (i & key & Hi & Hk & Hr). destruct i as [|[|i]]; [| |lia];
        cbn in Hk; injection Hk as <-; congruence.
    - intros v [= <-]. split; [reflexivity|]. cbn. discriminate. }
  destruct (read w 2 _) as [ch|] eqn:Rh.
  2:{ destruct C as [e C]. rewrite C in H. injection H as <- <- <-.
      exists 3%nat. split; [lia|]. split; [reflexivity|].
      split; [intros _; split; [reflexivity|discriminate] | intros v Hv; discriminate Hv]. }
  destruct (ch >=? RequestsPerHour (config r)).
  { rewrite C in H. injection H as <- <- <-. exists 3%nat.
    split; [lia|]. split; [reflexivity|]. split.
    - intros (i & key & Hi & Hk & Hr). destruct i as [|[|[|i]]]; [| | |lia];
        cbn in Hk; injection Hk as <-; congruence.
    - intros v [= <-]. split; [reflexivity|]. cbn. discriminate. }
  destruct (read w 3 _) as [cd|] eqn:Rd.
  2:{ destruct C as [e C]. rewrite C in H. injection H as <- <- <-.
      exists 4%nat. split; [lia|]. split; [reflexivity|].
      split; [intros _; split; [reflexivity|discriminate] | intros v Hv; discriminate Hv]. }
  assert (All : forall i key, keys !! i = Some key -> is_Some (read w i key)).
  { intros i key Hk. destruct i as [|[|[|[|i]]]]; cbn in Hk; try discriminate Hk;
      injection Hk as <-; eauto. }
  assert (NoFail : (exists i key, (i < 4)%nat /\ keys !! i = Some key /\ read w i key = None)
                   -> False).
  { intros (i & key & _ & Hk & Hr). destruct (All i key Hk) as [n Hn]. congruence. }
  destruct (cd >=? RequestsPerDay (config r));
    rewrite C in H; injection H as <- <- <-; exists 4%nat;
    (split; [lia|]); (split; [reflexivity|]); (split; [intros F; destruct (NoFail F)|]);
    intros v [= <-]; (split; [reflexivity|]); intros _; (split; [reflexivity|exact All]).
Qed.

(** The store cannot be reached when the hour counter is to be read: an
    error and no verdict, although every counter is below its limit. *)
Lemma C6_fail_closed_witness :
  let w := Examples.failing_at 2 (Examples.world_of ∅ Examples.ten) in
  exists k, (1 <= k <= 4)%nat
    /\ snd (CheckRateLimit (Examples.policy 2 100 1000 10000) "k1" w)
       = gets (take k ["quota:k1:2024-01"; "rate:k1:2024-01-01-10-00";
                       "rate:k1:2024-01-01-10"; "rate:k1:2024-01-01"]) (tick (tick w))
    /\ fst (CheckRateLimit (Examples.policy 2 100 1000 10000) "k1" w)
       = (None, Some (Wrapped "failed to get rate limit for hour window"
                        (Wrapped "failed to get rate limit" NetError))).
Proof.
  intros w.
  destruct (C6_fail_closed (Examples.policy 2 100 1000 10000) "k1" w
              None (Some (Wrapped "failed to get rate limit for hour window"
                            (Wrapped "failed to get rate limit" NetError)))
              (gets ["quota:k1:2024-01"; "rate:k1:2024-01-01-10-00";
                     "rate:k1:2024-01-01-10"] (tick (tick w))) eq_refl)
    as (k & Hk & Hw & _).
  exists k. split; [exact Hk|]. split; [exact Hw | reflexivity].
Defined.

(** C9: CheckRateLimit and GetRateLimitInfo only read.  Whatever they
    return, verdict, snapshot or error, the key space after the call is the
    key space before it, counters and expiries alike, and every round trip
    they made is a single GET.  GetRateLimitInfo compares nothing: when its
    four reads come back with counts it returns the snapshot of those counts,
    also when they are at or above the limits. *)
Theorem C9_check_and_info_read_only r apiKey w :
  let now := clock w (reads w) in
  let qk := quota_key apiKey (clock w (S (reads w))) in
  let mk := rate_key apiKey now Minute in
  let hk := rate_key apiKey now Hour in
  let dk := rate_key apiKey now (24 * Hour) in
  let entry (lim cur : Z) (win : Duration) :=
    {| info_current := cur; info_limit := lim; info_remaining := GoInt.sub lim cur;
       info_reset_time := getWindowResetTime now win |} in
  let read_only (w' : World) :=
    store w' = store w
    /\ exists k, trace w' = trace w ++ map (fun key => [GET key]) (take k [qk; mk; hk; dk]) in
  read_only (snd (CheckRateLimit r apiKey w))
  /\ read_only (snd (GetRateLimitInfo r apiKey w))
  /\ forall used cm ch cd,
       read w 0 qk = Some used -> read w 1 mk = Some cm ->
       read w 2 hk = Some ch -> read w 3 dk = Some cd ->
       fst (GetRateLimitInfo r apiKey w)
       = (Some {| monthly_quota_used := used;
                  monthly_quota_limit := MonthlyQuota (config r);
                  rate_limits :=
                    <["day" := entry (RequestsPerDay (config r)) cd (24 * Hour)]>
                    (<["hour" := entry (RequestsPerHour (config r)) ch Hour]>
                     (<["minute" := entry (RequestsPerMinute (config r)) cm Minute]> ∅)) |},
          None).
Proof.
  intros now qk mk hk dk entry read_only.
  assert (RO : forall k, read_only (gets (take k [qk; mk; hk; dk]) (tick (tick w)))).
  { intros k. split; [rewrite store_gets; reflexivity|]. exists k.
    rewrite trace_gets. reflexivity. }
  pose proof (CheckRateLimit_cases r apiKey w) as C.
  pose proof (GetRateLimitInfo_cases r apiKey w) as G.
  cbv zeta in C, G. fold now qk mk hk dk in C, G.
  split; [|split].
  - destruct (read w 0 qk) as [used|]; [|destruct C as [e ->]; exact (RO 1%nat)].
    destruct (used >=? _); [rewrite C; exact (RO 1%nat)|].
    destruct (read w 1 mk) as [cm|]; [|destruct C as [e ->]; exact (RO 2%nat)].
    destruct (cm >=? _); [rewrite C; exact (RO 2%nat)|].
    destruct (read w 2 hk) as [ch|]; [|destruct C as [e ->]; exact (RO 3%nat)].
    destruct (ch >=? _); [rewrite C; exact (RO 3%nat)|].
    destruct (read w 3 dk) as [cd|]; [|destruct C as [e ->]; exact (RO 4%nat)].
    destruct (cd >=? _); rewrite C; exact (RO 4%nat).
  - destruct (read w 0 qk) as [used|]; [|destruct G as [e ->]; exact (RO 1%nat)].
    destruct (read w 1 mk) as [cm|]; [|destruct G as [e ->]; exact (RO 2%nat)].
    destruct (read w 2 hk) as [ch|]; [|destruct G as [e ->]; exact (RO 3%nat)].
    destruct (read w 3 dk) as [cd|]; [|destruct G as [e ->]; exact (RO 4%nat)].
    rewrite G. exact (RO 4%nat).
  - intros used cm ch cd Hq Hm Hh Hd. rewrite Hq, Hm, Hh, Hd in G. rewrite G. reflexivity.
Qed.

(** Quota and minute counter far above their limits: CheckRateLimit would
    deny, GetRateLimitInfo reports the counts, the remaining count below
    zero. *)
Lemma C9_check_and_info_read_only_witness :
  let w := Examples.world_of
             {[ "rate:k1:2024-01-01-10-00" := Examples.count "9";
                "quota:k1:2024-01" := Examples.count "5" ]}
             Examples.ten in
  fst (GetRateLimitInfo (Examples.policy 2 100 1000 1) "k1" w)
  = (Some {| monthly_quota_used := 5;
             monthly_quota_limit := 1;
             rate_limits :=
               <["day" := {| info_current := 0; info_limit := 1000; info_remaining := 1000;
                             info_reset_time := Examples.at_time 2024 1 2 0 0 0 |}]>
               (<["hour" := {| info_current := 0; info_limit := 100; info_remaining := 100;
                               info_reset_time := Examples.at_time 2024 1 1 11 0 0 |}]>
                (<["minute" := {| info_current := 9; info_limit := 2; info_remaining := -7;
                                  info_reset_time := Examples.at_time 2024 1 1 10 1 0 |}]> ∅)) |},
     None).
Proof.
  intros w.
  exact (proj2 (proj2 (C9_check_and_info_read_only (Examples.policy 2 100 1000 1) "k1" w))
           5 9 0 0 eq_refl eq_refl eq_refl eq_refl).
Defined.

(** ** The store's reads, the API keys, the buckets *)

(** C8: when the round trip goes through, GetRateLimit and GetMonthlyQuota
    return 0 and no error for a key that is not there, and an error for a key
    whose string [strconv.Atoi] does not accept; a count returned without
    error is the integer the stored string spells, 0 only for a missing key
    or a stored zero. *)
Theorem C8_missing_is_zero_malformed_is_error apiKey win w :
  let rk := "rate:" +:+ apiKey +:+ ":" +:+ win in
  let qk := quota_key apiKey (clock w (reads w)) in
  net w (length (trace w)) = NoFault ->
  (store w !! rk = None ->
     Storage.GetRateLimit apiKey win w = ((0, None), sent [GET rk] w))
  /\ (store w !! qk = None ->
        Storage.GetMonthlyQuota apiKey w = ((0, None), sent [GET qk] (tick w)))
  /\ (forall s t v e,
        store w !! rk = Some {| value := VString s; ttl := t |} ->
        Strconv.Atoi s = (v, Some e) ->
        Storage.GetRateLimit apiKey win w
        = ((0, Some (Wrapped "failed to parse rate limit count" e)), sent [GET rk] w))
  /\ (forall s t v e,
        store w !! qk = Some {| value := VString s; ttl := t |} ->
        Strconv.Atoi s = (v, Some e) ->
        Storage.GetMonthlyQuota apiKey w
        = ((0, Some (Wrapped "failed to parse monthly quota count" e)),
           sent [GET qk] (tick w)))
  /\ (forall n w', Storage.GetRateLimit apiKey win w = ((n, None), w') ->
        counter (store w) rk = Some n)
  /\ (forall n w', Storage.GetMonthlyQuota apiKey w = ((n, None), w') ->
        counter (store w) qk = Some n).
Proof.
  intros rk qk Hnet.
  assert (Q : Storage.GetMonthlyQuota apiKey w
              = (let '(r, err) :=
                   match store w !! qk with
                   | None => (RNil, Some RedisNil)
                   | Some {| value := VString s |} => (RBulk s, None)
                   | Some {| value := VSet _ |} =>
                       (RErr WRONGTYPE, Some (RedisError WRONGTYPE))
                   end in
                 match err with
                 | Some RedisNil => (0, None)
                 | Some e => (0, Some (Wrapped "failed to get monthly quota" e))
                 | None =>
                     let '(count, err) := Strconv.Atoi (reply_string r) in
                     match err with
                     | Some e => (0, Some (Wrapped "failed to parse monthly quota count" e))
                     | None => (count, None)
                     end
                 end, sent [GET qk] (tick w))).
  { unfold Storage.GetMonthlyQuota, bind, time_Now. fold (tick w).
    change (Fmt.d (Year (clock w (reads w))) +:+ "-" +:+ Fmt.d02 (Month (clock w (reads w))))
      with (Fmt.d (year (clock w (reads w))) +:+ "-" +:+ Fmt.d02 (month (clock w (reads w)))).
    fold (quota_key apiKey (clock w (reads w))). fold qk.
    rewrite call_GET. change (net (tick w) (length (trace (tick w))))
      with (net w (length (trace w))). rewrite Hnet. change (store (tick w)) with (store w).
    destruct (store w !! qk) as [[[s|m] t]|]; try reflexivity.
    unfold ret. simpl. destruct (Strconv.Atoi s) as [n [e|]]; reflexivity. }
  assert (R : Storage.GetRateLimit apiKey win w
              = (let '(r, err) :=
                   match store w !! rk with
                   | None => (RNil, Some RedisNil)
                   | Some {| value := VString s |} => (RBulk s, None)
                   | Some {| value := VSet _ |} =>
                       (RErr WRONGTYPE, Some (RedisError WRONGTYPE))
                   end in
                 match err with
                 | Some RedisNil => (0, None)
                 | Some e => (0, Some (Wrapped "failed to get rate limit" e))
                 | None =>
                     let '(count, err) := Strconv.Atoi (reply_string r) in
                     match err with
                     | Some e => (0, Some (Wrapped "failed to parse rate limit count" e))
                     | None => (count, None)
                     end
                 end, sent [GET rk] w)).
  { unfold Storage.GetRateLimit, bind. fold rk. rewrite call_GET, Hnet.
    destruct (store w !! rk) as [[[s|m] t]|]; try reflexivity.
    unfold ret. simpl. destruct (Strconv.Atoi s) as [n [e|]]; reflexivity. }
  repeat split.
  - intros H. rewrite R, H. reflexivity.
  - intros H. rewrite Q, H. reflexivity.
  - intros s t v e H A. rewrite R, H. simpl. rewrite A. reflexivity.
  - intros s t v e H A. rewrite Q, H. simpl. rewrite A. reflexivity.
  - intros n w' H. rewrite R in H. unfold counter.
    destruct (store w !! rk) as [[[s|m] t]|]; simpl in H.
    + destruct (Strconv.Atoi s) as [c [e|]]; [discriminate H|]. congruence.
    + discriminate H.
    + congruence.
  - intros n w' H. rewrite Q in H. unfold counter.
    destruct (store w !! qk) as [[[s|m] t]|]; simpl in H.
    + destruct (Strconv.Atoi s) as [c [e|]]; [discriminate H|]. congruence.
    + discriminate H.
    + congruence.
Qed.

(** A caller never counted reads as 0; a counter overwritten with "12abc"
    reads as an error. *)
Lemma C8_missing_is_zero_malformed_is_error_witness :
  let w := Examples.world_of {[ "rate:k2:2024-01-01" := Examples.count "12abc" ]}
             Examples.ten in
  Storage.GetRateLimit "k1" "2024-01-01" w
  = ((0, None), sent [GET "rate:k1:2024-01-01"] w)
  /\ Storage.GetRateLimit "k2" "2024-01-01" w
     = ((0, Some (Wrapped "failed to parse rate limit count"
                    (NumError "Atoi" "12abc" ErrSyntax))),
        sent [GET "rate:k2:2024-01-01"] w).
Proof.
  intros w. split.
  - exact (proj1 (C8_missing_is_zero_malformed_is_error "k1" "2024-01-01" w eq_refl)
             eq_refl).
  - exact (proj1 (proj2 (proj2
             (C8_missing_is_zero_malformed_is_error "k2" "2024-01-01" w eq_refl)))
             "12abc" None 0 (NumError "Atoi" "12abc" ErrSyntax) eq_refl eq_refl).
Defined.

(** C10: ValidateAPIKey returns (false, nil) for the empty string and
    (true, nil) for every other string.  It returns no error and makes no
    round trip to the store, so the set of valid keys plays no part, and
    Authenticate lets every request with a non-empty key through, the key
    stored as the caller's identity. *)
Theorem C10_every_nonempty_key_is_valid apiKey w :
  Storage.ValidateAPIKey apiKey w
  = ((if decide (apiKey = "") then false else true, None), w)
  /\ Middleware.Authenticate apiKey w
     = (if decide (apiKey = "")
        then Middleware.Abort 401 "API key is required" "MISSING_API_KEY"
        else Middleware.Next apiKey, w)
  /\ forall w2, fst (Storage.ValidateAPIKey apiKey w2)
                = fst (Storage.ValidateAPIKey apiKey w).
Proof.
  unfold Middleware.Authenticate, Storage.ValidateAPIKey, bind, ret.
  destruct (decide (apiKey = "")); repeat split; reflexivity.
Qed.

(** A key taken out of the set of valid keys is still let through. *)
Example removed_key_still_valid :
  let w := Examples.world_of ∅ Examples.ten in
  let w1 := snd (Storage.AddValidAPIKey "k1" w) in
  let w2 := snd (Storage.RemoveValidAPIKey "k2" w1) in
  fst (Storage.GetValidAPIKeys w2) = (["k1"], None)
  /\ fst (Middleware.Authenticate "k2" w2) = Middleware.Next "k2".
Proof. vm_compute. split; reflexivity. Qed.

(** C7: two readings of one clock that fall in the same calendar minute get
    the same minute key and the same reset time, two readings in different
    calendar minutes get different minute keys; the minute key is the text of
    year, month, day, hour and minute; and the reset time of the minute, hour
    and day window is the start of the next minute, hour and day, seconds and
    nanoseconds at zero, which is 60, 3600 and 86400 seconds after the start of
    the current one. *)
Theorem C7_bucket_alignment t1 t2 :
  valid_time t1 = true -> valid_time t2 = true -> location t1 = location t2 ->
  (calendar_minute t1 = calendar_minute t2 ->
     getWindowKey t1 Minute = getWindowKey t2 Minute
     /\ getWindowResetTime t1 Minute = getWindowResetTime t2 Minute)
  /\ (calendar_minute t1 <> calendar_minute t2 ->
        getWindowKey t1 Minute <> getWindowKey t2 Minute)
  /\ getWindowKey t1 Minute
     = Fmt.d (year t1) +:+ "-" +:+ Fmt.d02 (month t1) +:+ "-" +:+ Fmt.d02 (day t1)
       +:+ "-" +:+ Fmt.d02 (hour t1) +:+ "-" +:+ Fmt.d02 (minute t1)
  /\ (getWindowResetTime t1 Minute = start_of_next_minute t1
      /\ getWindowResetTime t1 Hour = start_of_next_hour t1
      /\ getWindowResetTime t1 (24 * Hour) = start_of_next_day t1)
  /\ (forall win, win = Minute \/ win = Hour \/ win = 24 * Hour ->
        second (getWindowResetTime t1 win) = 0
        /\ nanosecond (getWindowResetTime t1 win) = 0)
  /\ (Unix (getWindowResetTime t1 Minute) = Unix t1 - second t1 + 60
      /\ Unix (getWindowResetTime t1 Hour)
         = Unix t1 - (minute t1 * 60 + second t1) + 3600
      /\ Unix (getWindowResetTime t1 (24 * Hour))
         = Unix t1 - (hour t1 * 3600 + minute t1 * 60 + second t1) + 86400).
Proof.
  intros V1 V2 L.
  pose proof (getWindowResetTime_window_reset t1 Minute V1 ltac:(auto)) as RM.
  pose proof (getWindowResetTime_window_reset t1 Hour V1 ltac:(auto)) as RH.
  pose proof (getWindowResetTime_window_reset t1 (24 * Hour) V1 ltac:(auto)) as RD.
  change (window_reset t1 Minute) with (start_of_next_minute t1) in RM.
  change (window_reset t1 Hour) with (start_of_next_hour t1) in RH.
  change (window_reset t1 (24 * Hour)) with (start_of_next_day t1) in RD.
  split; [|split; [|split; [|split; [|split]]]].
  - intros E. unfold calendar_minute in E. injection E as Ey Emo Ed Eh Emi.
    unfold getWindowKey, getWindowResetTime, Year, Month, Day, Hour_of, Minute_of, Loc.
    change (Minute =? Minute) with true. cbv iota.
    rewrite Ey, Emo, Ed, Eh, Emi, L. split; reflexivity.
  - intros N E. apply N. apply minute_key_inj; assumption.
  - reflexivity.
  - auto.
  - assert (Z0 : forall t, second (start_of_next_month t) = 0
                           /\ nanosecond (start_of_next_month t) = 0).
    { intros t. unfold start_of_next_month. destruct (month t =? 12); split; reflexivity. }
    assert (Z1 : forall t, second (start_of_next_day t) = 0
                           /\ nanosecond (start_of_next_day t) = 0).
    { intros t. unfold start_of_next_day.
      destruct (day t <? _); [split; reflexivity | apply Z0]. }
    assert (Z2 : forall t, second (start_of_next_hour t) = 0
                           /\ nanosecond (start_of_next_hour t) = 0).
    { intros t. unfold start_of_next_hour.
      destruct (hour t <? 23); [split; reflexivity | apply Z1]. }
    assert (Z3 : forall t, second (start_of_next_minute t) = 0
                           /\ nanosecond (start_of_next_minute t) = 0).
    { intros t. unfold start_of_next_minute.
      destruct (minute t <? 59); [split; reflexivity | apply Z2]. }
    intros win [-> | [-> | ->]]; [rewrite RM | rewrite RH | rewrite RD]; auto.
  - rewrite RM, RH, RD.
    auto using Unix_start_of_next_minute, Unix_start_of_next_hour, Unix_start_of_next_day.
Qed.

(** 10:00:00 and 10:00:59 share the minute bucket and its reset; one second
    later, at 10:01:00, the bucket is another one.  The last minute of a year
    resets at the first instant of the next year. *)
Lemma C7_bucket_alignment_witness :
  (getWindowKey (Examples.at_time 2024 1 1 10 0 0) Minute
   = getWindowKey (Examples.at_time 2024 1 1 10 0 59) Minute
   /\ getWindowResetTime (Examples.at_time 2024 1 1 10 0 0) Minute
      = getWindowResetTime (Examples.at_time 2024 1 1 10 0 59) Minute)
  /\ getWindowKey (Examples.at_time 2024 1 1 10 0 59) Minute
     <> getWindowKey (Examples.at_time 2024 1 1 10 1 0) Minute
  /\ getWindowResetTime Examples.new_years_eve Minute = Examples.at_time 2025 1 1 0 0 0.
Proof.
  split; [|split].
  - exact (proj1 (C7_bucket_alignment (Examples.at_time 2024 1 1 10 0 0)
                    (Examples.at_time 2024 1 1 10 0 59) eq_refl eq_refl eq_refl) eq_refl).
  - apply (proj1 (proj2 (C7_bucket_alignment (Examples.at_time 2024 1 1 10 0 59)
                    (Examples.at_time 2024 1 1 10 1 0) eq_refl eq_refl eq_refl))).
    discriminate.
  - exact (proj1 (proj1 (proj2 (proj2 (proj2
             (C7_bucket_alignment Examples.new_years_eve Examples.new_years_eve
                eq_refl eq_refl eq_refl)))))).
Defined.

(** ** The increments *)

Section Increments.

(** INCR then EXPIRE on one key, as both increments of the store send them:
    the replies, and the key space, in which only that key has changed. *)
Lemma exec_incr_expire key secs db :
  0 < secs ->
  exec_all [INCR key; EXPIRE key secs] db
  = match db !! key with
    | None =>
        (<[key := {| value := VString "1"; ttl := Some (secs * Second) |}]> db,
         [RInt 1; RInt 1])
    | Some {| value := VString s |} =>
        match string2ll s with
        | None =>
            (<[key := {| value := VString s; ttl := Some (secs * Second) |}]> db,
             [RErr NOTINT; RInt 1])
        | Some n =>
            if GoInt.maxInt <=? n then
              (<[key := {| value := VString s; ttl := Some (secs * Second) |}]> db,
               [RErr OVERFLOW; RInt 1])
            else
              (<[key := {| value := VString (pretty (n + 1));
                           ttl := Some (secs * Second) |}]> db,
               [RInt (n + 1); RInt 1])
        end
    | Some {| value := VSet m |} =>
        (<[key := {| value := VSet m; ttl := Some (secs * Second) |}]> db,
         [RErr WRONGTYPE; RInt 1])
    end.
Proof.
  intros Hs. assert (E : (secs <=? 0) = false) by (apply Z.leb_gt; lia).
  unfold exec_all, exec.
  destruct (db !! key) as [[[s|m] t]|] eqn:L.
  - destruct (string2ll s) as [n|].
    + destruct (GoInt.maxInt <=? n).
      * rewrite L, E. reflexivity.
      * rewrite lookup_insert_eq, E, insert_insert_eq. reflexivity.
    + rewrite L, E. reflexivity.
  - rewrite L, E. reflexivity.
  - rewrite lookup_insert_eq, E, insert_insert_eq. reflexivity.
Qed.

Lemma exec_INCR_frame key db k :
  k <> key -> fst (exec (INCR key) db) !! k = db !! k.
Proof.
  intros N. unfold exec.
  destruct (db !! key) as [[[s|m] t]|];
    [destruct (string2ll s) as [n|]; [destruct (GoInt.maxInt <=? n)|]|..];
    simpl; rewrite ?lookup_insert_ne by auto; reflexivity.
Qed.

Lemma exec_EXPIRE_frame key secs db k :
  k <> key -> fst (exec (EXPIRE key secs) db) !! k = db !! k.
Proof.
  intros N. unfold exec.
  destruct (db !! key); [destruct (secs <=? 0)|]; simpl;
    rewrite ?lookup_delete_ne, ?lookup_insert_ne by auto; reflexivity.
Qed.

Lemma exec_all_two c1 c2 db :
  fst (exec_all [c1; c2] db) = fst (exec c2 (fst (exec c1 db))).
Proof.
  unfold exec_all. destruct (exec c1 db) as [db1 r1]. simpl.
  destruct (exec c2 db1) as [db2 r2]. reflexivity.
Qed.

Lemma exec_incr_expire_frame key secs db k :
  k <> key ->
  fst (exec_all [INCR key; EXPIRE key secs] db) !! k = db !! k.
Proof.
  intros N. rewrite exec_all_two, exec_EXPIRE_frame, exec_INCR_frame by exact N.
  reflexivity.
Qed.


(** [pipe.Exec] of INCR and EXPIRE on [key]: one round trip, no other key
    touched, and when no error comes back the count replied is the count now
    stored, with the expiry sent. *)
Lemma Exec_incr_expire key secs w :
  let res := Exec [INCR key; EXPIRE key secs] w in
  let w' := snd res in
  trace w' = trace w ++ [[INCR key; EXPIRE key secs]]
  /\ net w' = net w /\ clock w' = clock w /\ reads w' = reads w
  /\ (forall k, k <> key -> store w' !! k = store w !! k)
  /\ (0 < secs -> snd (fst res) = None ->
        store w' !! key
        = Some {| value := VString (pretty (reply_int (nth 0 (fst (fst res)) RNil)));
                  ttl := Some (secs * Second) |}).
Proof.
  unfold Exec, bind, roundtrip, ret.
  pose proof (exec_incr_expire_frame key secs (store w)) as F.
  pose proof (exec_incr_expire key secs (store w)) as E.
  destruct (net w (length (trace w)));
    destruct (exec_all [INCR key; EXPIRE key secs] (store w)) as [db rs] eqn:X;
    simpl in *; repeat split; auto; try discriminate.
  intros Hs Herr. specialize (E Hs).
  destruct (store w !! key) as [[[s|m] t]|].
  - destruct (string2ll s) as [n|]; [destruct (GoInt.maxInt <=? n)|];
      injection E as -> ->; try discriminate Herr.
    simpl. apply lookup_insert_eq.
  - injection E as -> ->. discriminate Herr.
  - injection E as -> ->. simpl. apply lookup_insert_eq.
Qed.

Lemma formatSec_Hour : formatSec Hour = 3600.
Proof. reflexivity. Qed.

(** The store's IncrementRateLimit, whatever the window. *)
Lemma Storage_IncrementRateLimit_spec apiKey win lim w :
  let key := "rate:" +:+ apiKey +:+ ":" +:+ win in
  let res := Storage.IncrementRateLimit apiKey win lim w in
  let w' := snd res in
  trace w' = trace w ++ [[INCR key; EXPIRE key 3600]]
  /\ net w' = net w /\ clock w' = clock w /\ reads w' = reads w
  /\ (forall k, k <> key -> store w' !! k = store w !! k)
  /\ (snd (fst res) = None ->
        store w' !! key
        = Some {| value := VString (pretty (fst (fst res))); ttl := Some Hour |}).
Proof.
  intros key. unfold Storage.IncrementRateLimit, bind. fold key.
  rewrite formatSec_Hour.
  pose proof (Exec_incr_expire key 3600 w) as X. cbv zeta in X.
  destruct (Exec [INCR key; EXPIRE key 3600] w) as [[rs [e|]] w1]; simpl in *.
  - destruct X as (T & N & C & R & F & _). repeat split; auto. discriminate.
  - destruct X as (T & N & C & R & F & A). repeat split; auto.
    intros _. apply A; [lia | reflexivity].
Qed.

(** The monthly quota outlives the present second: the expiry sent is at
    least one second. *)
Lemma monthly_expiration_positive t :
  valid_time t = true ->
  0 < formatSec (Sub (Date (Year t) (Month t + 1) 1 0 0 0 0 (Loc t)) t).
Proof.
  intros V. rewrite (Date_next_month t V).
  pose proof (Unix_start_of_next_month t V) as U.
  assert (N : nanosecond (start_of_next_month t) = 0)
    by (unfold start_of_next_month; destruct (month t =? 12); reflexivity).
  apply valid_time_fields in V. destruct V as (Hm & Hd & Hh & Hmi & Hs & Hn).
  unfold Sub. rewrite U, N.
  set (days := daysIn (year t) (month t) - day t + 1) in *.
  assert (1 <= days) by (unfold days; lia).
  set (dur := (_ - Unix t) * 1000000000 + (0 - nanosecond t)).
  assert (D : 0 < dur) by (unfold dur; lia).
  unfold formatSec. destruct (Z.ltb_spec 0 dur); [|lia].
  destruct (Z.ltb_spec dur Second); simpl; [lia|].
  unfold Second, Nanosecond in *.
  rewrite Z.quot_div_nonneg by lia. apply Z.div_str_pos. lia.
Qed.

(** The store's IncrementMonthlyQuota. *)
Lemma Storage_IncrementMonthlyQuota_spec apiKey quota w :
  let now := clock w (reads w) in
  let key := quota_key apiKey now in
  let secs := formatSec (Sub (Date (Year now) (Month now + 1) 1 0 0 0 0 (Loc now)) now) in
  let res := Storage.IncrementMonthlyQuota apiKey quota w in
  let w' := snd res in
  trace w' = trace w ++ [[INCR key; EXPIRE key secs]]
  /\ net w' = net w /\ clock w' = clock w /\ reads w' = S (reads w)
  /\ (forall k, k <> key -> store w' !! k = store w !! k)
  /\ (valid_time now = true -> snd (fst res) = None ->
        store w' !! key
        = Some {| value := VString (pretty (fst (fst res)));
                  ttl := Some (secs * Second) |}).
Proof.
  intros now key secs. unfold Storage.IncrementMonthlyQuota, bind, time_Now.
  fold (tick w). fold now.
  change (Fmt.d (Year now) +:+ "-" +:+ Fmt.d02 (Month now))
    with (Fmt.d (year now) +:+ "-" +:+ Fmt.d02 (month now)).
  fold (quota_key apiKey now). fold key. fold secs.
  pose proof (Exec_incr_expire key secs (tick w)) as X. cbv zeta in X.
  destruct (Exec [INCR key; EXPIRE key secs] (tick w)) as [[rs [e|]] w1]; simpl in *.
  - destruct X as (T & N & C & R & F & _). repeat split; auto. discriminate.
  - destruct X as (T & N & C & R & F & A). repeat split; auto.
    intros V _. apply A; [apply monthly_expiration_positive, V | reflexivity].
Qed.

(** The four keys of one commit are four different keys. *)
Lemma append_same_prefix (s t : string) : s +:+ t = s -> t = "".
Proof.
  intros E. rewrite <- (append_nil_r s) in E at 2.
  exact (String.app_inj s _ _ E).
Qed.

Lemma commit_keys_distinct apiKey now now' :
  NoDup [quota_key apiKey now'; rate_key apiKey now Minute; rate_key apiKey now Hour;
         rate_key apiKey now (24 * Hour)].
Proof.
  assert (R : forall a b, rate_key apiKey now a = rate_key apiKey now b ->
                          getWindowKey now a = getWindowKey now b).
  { intros a b E. unfold rate_key in E.
    apply (String.app_inj "rate:") in E. apply (String.app_inj apiKey) in E.
    apply (String.app_inj ":") in E. exact E. }
  assert (Q : forall a, quota_key apiKey now' <> rate_key apiKey now a).
  { intros a E. unfold quota_key, rate_key in E. discriminate E. }
  assert (MH : getWindowKey now Minute <> getWindowKey now Hour).
  { unfold getWindowKey. change (Minute =? Minute) with true.
    change (Hour =? Minute) with false. change (Hour =? Hour) with true. cbv iota.
    intros E. do 6 apply String.app_inj in E.
    apply append_same_prefix in E. discriminate E. }
  assert (MD : getWindowKey now Minute <> getWindowKey now (24 * Hour)).
  { unfold getWindowKey. change (Minute =? Minute) with true.
    change (24 * Hour =? Minute) with false. change (24 * Hour =? Hour) with false.
    change (24 * Hour =? 24 * Hour) with true. cbv iota.
    intros E. do 4 apply String.app_inj in E.
    apply append_same_prefix in E. discriminate E. }
  assert (HD : getWindowKey now Hour <> getWindowKey now (24 * Hour)).
  { unfold getWindowKey. change (Hour =? Minute) with false.
    change (Hour =? Hour) with true.
    change (24 * Hour =? Minute) with false. change (24 * Hour =? Hour) with false.
    change (24 * Hour =? 24 * Hour) with true. cbv iota.
    intros E. do 4 apply String.app_inj in E.
    apply append_same_prefix in E. discriminate E. }
  repeat constructor; rewrite ?elem_of_cons, ?elem_of_nil; intros C;
    repeat destruct C as [C|C]; try (exact C); try (eapply Q; exact C);
    try (apply R in C; congruence).
  all: try (apply R in C; symmetry in C; auto).
Qed.

End Increments.

(** Every successful increment of a window counter leaves [time.Hour] as the
    key's time to live, whatever the window: enough for the minute and the
    hour window, not for the day window. *)
Lemma window_counter_expiry_is_one_hour apiKey win lim w n w' :
  Storage.IncrementRateLimit apiKey win lim w = ((n, None), w') ->
  store w' !! ("rate:" +:+ apiKey +:+ ":" +:+ win)
  = Some {| value := VString (pretty n); ttl := Some Hour |}
  /\ Minute <= Hour /\ Hour <= Hour /\ Hour < 24 * Hour.
Proof.
  intros H.
  destruct (Storage_IncrementRateLimit_spec apiKey win lim w) as (_ & _ & _ & _ & _ & A).
  rewrite H in A. simpl in A. split; [apply A; reflexivity|].
  unfold Hour, Minute, Second, Nanosecond. lia.
Qed.

(** C3, at the day window: a request committed at 10:00 puts the day counter
    of 2024-01-01 under a time to live of one hour, not of a day.  At 11:00
    of the same day the same day bucket is still the one in use, the counter
    is gone, reads as 0, and a caller whose per-day limit of 1 is used up is
    admitted again. *)
Theorem C3_day_counter_outlived_by_its_bucket :
  let r := Examples.policy 60 1000 1 10000 in
  let w0 := Examples.world_of ∅ Examples.ten in
  let w1 := snd (IncrementRateLimit r "k1" w0) in
  let w2 := Examples.later Hour Examples.eleven w1 in
  fst (IncrementRateLimit r "k1" w0) = None
  /\ store w1 !! "rate:k1:2024-01-01"
     = Some {| value := VString "1"; ttl := Some Hour |}
  /\ Hour < 24 * Hour
  /\ (fst (fst (CheckRateLimit r "k1" w1))
      = Some {| Allowed := false; Remaining := 0;
                ResetTime := Examples.at_time 2024 1 2 0 0 0;
                Limit := 1; Window := "day"; QuotaUsed := 1; QuotaLimit := 10000 |})
  /\ getWindowKey Examples.eleven (24 * Hour) = getWindowKey Examples.ten (24 * Hour)
  /\ store w2 !! "rate:k1:2024-01-01" = None
  /\ fst (Storage.GetRateLimit "k1" "2024-01-01" w2) = (0, None)
  /\ fst (fst (CheckRateLimit r "k1" w2))
     = Some {| Allowed := true; Remaining := 60;
               ResetTime := Examples.at_time 2024 1 1 11 1 0;
               Limit := 60; Window := "minute"; QuotaUsed := 1; QuotaLimit := 10000 |}.
Proof. vm_compute. repeat split; reflexivity. Qed.

(** C5: IncrementRateLimit makes its increments in the order monthly quota,
    minute, hour, day, each a round trip of its own on its own key.  It
    returns the error of the first increment that fails, and the world it
    leaves is the world right after that increment: the increments before it
    stay as they were applied, the increments after it have sent nothing and
    their keys are as they were.  When none fails it returns no error. *)
Theorem C5_commit_stops_at_first_failure r apiKey w :
  let now := clock w (reads w) in
  let now' := clock w (S (reads w)) in
  let cfg := config r in
  let s1 := Storage.IncrementMonthlyQuota apiKey (MonthlyQuota cfg) (tick w) in
  let s2 := Storage.IncrementRateLimit apiKey (getWindowKey now Minute)
              (RequestsPerMinute cfg) (snd s1) in
  let s3 := Storage.IncrementRateLimit apiKey (getWindowKey now Hour)
              (RequestsPerHour cfg) (snd s2) in
  let s4 := Storage.IncrementRateLimit apiKey (getWindowKey now (24 * Hour))
              (RequestsPerDay cfg) (snd s3) in
  let failure (s : Z * option error * World) := snd (fst s) in
  let counted (s : Z * option error * World) := fst (fst s) in
  let qk := quota_key apiKey now' in
  let mk := rate_key apiKey now Minute in
  let hk := rate_key apiKey now Hour in
  let dk := rate_key apiKey now (24 * Hour) in
  let ks := [qk; mk; hk; dk] in
  let ws := [tick w; snd s1; snd s2; snd s3; snd s4] in
  let monthly_secs :=
    formatSec (Sub (Date (Year now') (Month now' + 1) 1 0 0 0 0 (Loc now')) now') in
  let sends := [[INCR qk; EXPIRE qk monthly_secs]; [INCR mk; EXPIRE mk 3600];
                [INCR hk; EXPIRE hk 3600]; [INCR dk; EXPIRE dk 3600]] in
  IncrementRateLimit r apiKey w
  = match failure s1 with
    | Some e => (Some (Wrapped "failed to increment monthly quota" e), snd s1)
    | None =>
      match failure s2 with
      | Some e =>
          (Some (Wrapped "failed to increment rate limit for minute window" e), snd s2)
      | None =>
        match failure s3 with
        | Some e =>
            (Some (Wrapped "failed to increment rate limit for hour window" e), snd s3)
        | None =>
          match failure s4 with
          | Some e =>
              (Some (Wrapped "failed to increment rate limit for day window" e), snd s4)
          | None => (None, snd s4)
          end
        end
      end
    end
  /\ (forall j wj, ws !! j = Some wj -> trace wj = trace w ++ take j sends)
  /\ (forall i j k wi wj,
        ks !! i = Some k -> ws !! S i = Some wi -> ws !! j = Some wj ->
        ((i < j)%nat -> store wj !! k = store wi !! k)
        /\ ((j <= i)%nat -> store wj !! k = store w !! k))
  /\ (valid_time now' = true -> failure s1 = None ->
        store (snd s1) !! qk
        = Some {| value := VString (pretty (counted s1));
                  ttl := Some (monthly_secs * Second) |})
  /\ (failure s2 = None ->
        store (snd s2) !! mk
        = Some {| value := VString (pretty (counted s2)); ttl := Some Hour |})
  /\ (failure s3 = None ->
        store (snd s3) !! hk
        = Some {| value := VString (pretty (counted s3)); ttl := Some Hour |})
  /\ (failure s4 = None ->
        store (snd s4) !! dk
        = Some {| value := VString (pretty (counted s4)); ttl := Some Hour |}).
Proof.
  intros now now' cfg s1 s2 s3 s4 failure counted qk mk hk dk ks ws monthly_secs sends.
  split.
  { subst failure s4 s3 s2 s1.
    unfold IncrementRateLimit, bind, time_Now. fold (tick w). fold now cfg.
    destruct (Storage.IncrementMonthlyQuota apiKey (MonthlyQuota cfg) (tick w))
      as [[n1 [e1|]] w1]; simpl; [reflexivity|].
    unfold windows. fold cfg. cbn [increment_windows name limit window]. unfold bind.
    destruct (Storage.IncrementRateLimit apiKey (getWindowKey now Minute) _ w1)
      as [[n2 [e2|]] w2]; simpl; [reflexivity|].
    destruct (Storage.IncrementRateLimit apiKey (getWindowKey now Hour) _ w2)
      as [[n3 [e3|]] w3]; simpl; [reflexivity|].
    destruct (Storage.IncrementRateLimit apiKey (getWindowKey now (24 * Hour)) _ w3)
      as [[n4 [e4|]] w4]; simpl; reflexivity. }
  pose proof (Storage_IncrementMonthlyQuota_spec apiKey (MonthlyQuota cfg) (tick w)) as P1.
  pose proof (Storage_IncrementRateLimit_spec apiKey (getWindowKey now Minute)
                (RequestsPerMinute cfg) (snd s1)) as P2.
  pose proof (Storage_IncrementRateLimit_spec apiKey (getWindowKey now Hour)
                (RequestsPerHour cfg) (snd s2)) as P3.
  pose proof (Storage_IncrementRateLimit_spec apiKey (getWindowKey now (24 * Hour))
                (RequestsPerDay cfg) (snd s3)) as P4.
  cbv zeta in P1, P2, P3, P4.
  change (clock (tick w) (reads (tick w))) with now' in P1.
  fold (rate_key apiKey now Minute) in P2. fold (rate_key apiKey now Hour) in P3.
  fold (rate_key apiKey now (24 * Hour)) in P4.
  fold qk monthly_secs s1 in P1. fold mk s2 in P2. fold hk s3 in P3. fold dk s4 in P4.
  destruct P1 as (T1 & _ & _ & _ & F1 & A1), P2 as (T2 & _ & _ & _ & F2 & A2),
    P3 as (T3 & _ & _ & _ & F3 & A3), P4 as (T4 & _ & _ & _ & F4 & A4).
  change (trace (tick w)) with (trace w) in T1.
  change (store (tick w)) with (store w) in F1.
  pose proof (commit_keys_distinct apiKey now now') as ND. fold qk mk hk dk in ND.
  apply NoDup_cons in ND. destruct ND as [Nq ND].
  apply NoDup_cons in ND. destruct ND as [Nm ND].
  apply NoDup_cons in ND. destruct ND as [Nh _].
  apply not_elem_of_cons in Nq as [Nqm Nq]. apply not_elem_of_cons in Nq as [Nqh Nq].
  apply not_elem_of_cons in Nq as [Nqd _]. apply not_elem_of_cons in Nm as [Nmh Nm].
  apply not_elem_of_cons in Nm as [Nmd _]. apply not_elem_of_cons in Nh as [Nhd _].
  clearbody s1 s2 s3 s4 qk mk hk dk monthly_secs.
  split; [|split; [|split; [|split; [|split]]]]; auto.
  - intros j wj Hj. destruct j as [|[|[|[|[|j]]]]]; cbn in Hj; try discriminate Hj;
      injection Hj as <-; cbn [take sends].
    + rewrite app_nil_r. reflexivity.
    + exact T1.
    + rewrite T2, T1, <- app_assoc. reflexivity.
    + rewrite T3, T2, T1, <- !app_assoc. reflexivity.
    + rewrite T4, T3, T2, T1, <- !app_assoc. reflexivity.
  - intros i j k wi wj Hk Hi Hj.
    destruct i as [|[|[|[|i]]]]; cbn in Hk, Hi; try discriminate Hk;
      injection Hk as <-; injection Hi as <-;
      (destruct j as [|[|[|[|[|j]]]]]; cbn in Hj; try discriminate Hj;
       injection Hj as <-); (split; intros L; try lia; try reflexivity);
      rewrite ?F4, ?F3, ?F2, ?F1 by congruence;
      reflexivity.
Qed.

(** Partial commit: the round trip of the hour increment is lost.  The call
    reports the hour window's error; the quota and minute counters stay at
    the 1 they were raised to, the hour and day counters are not there. *)
Lemma C5_commit_stops_at_first_failure_witness :
  let w := Examples.failing_at 2 (Examples.world_of ∅ Examples.ten) in
  let res := IncrementRateLimit (Examples.policy 2 100 1000 10000) "k1" w in
  fst res = Some (Wrapped "failed to increment rate limit for hour window"
                    (Wrapped "failed to increment rate limit" NetError))
  /\ store (snd res) !! "rate:k1:2024-01-01-10-00"
     = Some {| value := VString "1"; ttl := Some Hour |}
  /\ store (snd res) !! "rate:k1:2024-01-01" = None.
Proof.
  intros w res.
  destruct (C5_commit_stops_at_first_failure (Examples.policy 2 100 1000 10000) "k1" w)
    as (EQ & _ & F & _ & A2 & _).
  split; [|split].
  - unfold res. rewrite EQ. reflexivity.
  - refine (eq_trans (proj1 (F 1%nat 3%nat _ _ _ eq_refl eq_refl eq_refl) _) (A2 eq_refl)).
    lia.
  - refine (proj2 (F 3%nat 3%nat _ _ _ eq_refl eq_refl eq_refl) _). lia.
Defined.

(** ** Scenarios of the specification, run *)

(** End-to-end scenario A: policy minute 2, hour 100, day 1000, monthly
    10000.  The first check allows and reports the limit 2 as remaining;
    after two commits the third check in the same minute denies on the minute
    window with limit 2 and nothing remaining. *)
Example scenario_A :
  let r := Examples.policy 2 100 1000 10000 in
  let w0 := Examples.world_of ∅ Examples.ten in
  let c1 := CheckRateLimit r "k1" w0 in
  let w1 := snd (IncrementRateLimit r "k1" (snd c1)) in
  let w2 := snd (IncrementRateLimit r "k1" (snd (CheckRateLimit r "k1" w1))) in
  let c3 := CheckRateLimit r "k1" w2 in
  fst c1 = (Some {| Allowed := true; Remaining := 2;
                    ResetTime := Examples.at_time 2024 1 1 10 1 0;
                    Limit := 2; Window := "minute";
                    QuotaUsed := 0; QuotaLimit := 10000 |}, None)
  /\ fst c3 = (Some {| Allowed := false; Remaining := 0;
                       ResetTime := Examples.at_time 2024 1 1 10 1 0;
                       Limit := 2; Window := "minute";
                       QuotaUsed := 2; QuotaLimit := 10000 |}, None).
Proof. vm_compute. split; reflexivity. Qed.

(** Reset rollover: a request committed in the last minute of 2024-12-31 is
    counted under that day's key; half a minute later, on 2025-01-01, the day
    bucket is another key and reads as 0. *)
Example reset_rollover :
  let r := Examples.policy 2 100 1000 10000 in
  let w1 := snd (IncrementRateLimit r "k1"
                   (Examples.world_of ∅ Examples.new_years_eve)) in
  let t := Examples.at_time 2025 1 1 0 0 0 in
  let w2 := Examples.later (30 * Second) t w1 in
  fst (Storage.GetRateLimit "k1" (getWindowKey Examples.new_years_eve (24 * Hour)) w1)
  = (1, None)
  /\ getWindowKey t (24 * Hour) <> getWindowKey Examples.new_years_eve (24 * Hour)
  /\ fst (Storage.GetRateLimit "k1" (getWindowKey t (24 * Hour)) w2) = (0, None).
Proof. vm_compute. repeat split; (reflexivity || discriminate). Qed.
